(** * thinc: a transcoder between brace syntax and indentation syntax

    A shallow embedding of [thinc.py].  The program reads a C/C++-like source
    text, separates code from comments, parses the code into a tree of
    [line_number, text, children] nodes, restructures the tree, renders it in
    the opposite surface syntax, and merges the comments back by line number.

    Conventions of the embedding:
    - a Python [str] is a [string]; a character is an [ascii] and stands for
      the code point of the same number (inputs over code points 0..255);
    - a Python list is a [list]; the tree of nested lists is [Node];
    - a Python [dict] is a [gmap];
    - an uncaught Python exception is [Raise]; every function that can raise
      returns a [result];
    - the keys of [merge_comments] are line numbers and line numbers plus a
      multiple of 1/1024; they are kept here as integers counting 1/1024ths
      (the float sums [n + k/1024] of the source are exact for every line
      number below 2^42);
    - a recursive function of the source is a structural [Fixpoint]: the
      recursion limit of the interpreter is not modelled, and the
      [RecursionError] that the recursive passes raise on a tree nested
      deeper than that limit is not among the exceptions.  What is proved of
      these passes concerns the value they return and the exceptions of
      their own statements. *)

From Stdlib Require Import ZArith List String Ascii Bool Lia.
From stdpp Require Import base option list gmap sorting strings.
Import ListNotations.

Open Scope string_scope.
Open Scope list_scope.
Open Scope Z_scope.

(** ** Python exceptions *)

Inductive exn := IndexError | UnboundLocalError | AttributeError.

Inductive result (A : Type) :=
| OK (a : A)
| Raise (e : exn).
Arguments OK {A} a.
Arguments Raise {A} e.

#[global] Instance result_ret : MRet result := fun _ a => OK a.
#[global] Instance result_bind : MBind result := fun _ _ f m =>
  match m with
  | OK a => f a
  | Raise e => Raise e
  end.

(** ** Python strings *)

Module Py.

Definition chars (s : string) : list ascii := list_ascii_of_string s.
Definition str (l : list ascii) : string := string_of_list_ascii l.

Definition LF : ascii := "010"%char.
Definition CR : ascii := "013"%char.
Definition TAB : ascii := "009"%char.
Definition DQUOTE : ascii := "034"%char.
Definition BACKSLASH : ascii := "092"%char.

Definition nl : string := String LF "".

Definition len (s : string) : nat := String.length s.

(** [c1 == c2] on characters. *)
Definition ceq (a b : ascii) : bool := Ascii.eqb a b.

(** [str.isspace] on one character (code points below 256). *)
Definition isspace (c : ascii) : bool :=
  let n := nat_of_ascii c in
  (((9 <=? n) && (n <=? 13)) || ((28 <=? n) && (n <=? 32))
   || (n =? 133) || (n =? 160))%nat.

(** The line boundaries of [str.splitlines] (code points below 256). *)
Definition is_linebreak (c : ascii) : bool :=
  let n := nat_of_ascii c in
  (((10 <=? n) && (n <=? 13)) || ((28 <=? n) && (n <=? 30)) || (n =? 133))%nat.

(** [s.splitlines()]: [cur] is the current line, reversed; [after_cr] says
    that the previous character was a carriage return, so that a line feed
    now belongs to the same boundary. *)
Fixpoint splitlines_aux (after_cr : bool) (cur : list ascii) (l : list ascii)
  : list string :=
  match l with
  | [] => match cur with [] => [] | _ => [str (rev cur)] end
  | c :: l' =>
      if after_cr && ceq c LF then splitlines_aux false cur l'
      else if is_linebreak c then str (rev cur) :: splitlines_aux (ceq c CR) [] l'
      else splitlines_aux false (c :: cur) l'
  end.

Definition splitlines (s : string) : list string :=
  splitlines_aux false [] (chars s).

Fixpoint lstrip_chars (l : list ascii) : list ascii :=
  match l with
  | c :: l' => if isspace c then lstrip_chars l' else l
  | [] => []
  end.

(** [s.strip()] *)
Definition strip (s : string) : string :=
  str (rev (lstrip_chars (rev (lstrip_chars (chars s))))).

(** [s[-1]] *)
Definition last_char (s : string) : result ascii :=
  match rev (chars s) with
  | c :: _ => OK c
  | [] => Raise IndexError
  end.

(** [s[0]] *)
Definition first_char (s : string) : result ascii :=
  match s with
  | String c _ => OK c
  | EmptyString => Raise IndexError
  end.

(** [s[-1] == c] where the source has already checked that [s] is not empty,
    and [(" " + s)[-1] == c]. *)
Definition ends_with (s : string) (c : ascii) : bool :=
  match rev (chars s) with
  | d :: _ => ceq d c
  | [] => false
  end.

(** [s[:-n]] for a positive [n]. *)
Definition drop_last (n : nat) (s : string) : string :=
  str (take (length (chars s) - n)%nat (chars s)).

(** [t + c] for a character [c]. *)
Definition add_char (c : ascii) (t : string) : string := t +:+ String c "".

(** [" " * n] *)
Definition spaces (n : nat) : string := str (repeat " "%char n).

(** [bool(s)] *)
Definition nonempty (s : string) : bool :=
  match s with EmptyString => false | _ => true end.

Fixpoint strip_prefix (p l : list ascii) : option (list ascii) :=
  match p, l with
  | [], _ => Some l
  | a :: p', b :: l' => if ceq a b then strip_prefix p' l' else None
  | _ :: _, [] => None
  end.

(** [s.split(sep)] for a non-empty separator. *)
Fixpoint split_aux (sep : list ascii) (cur : list ascii) (l : list ascii)
  (skip : nat) : list string :=
  match l with
  | [] => [str (rev cur)]
  | c :: l' =>
      match skip with
      | S k => split_aux sep cur l' k
      | O =>
          match strip_prefix sep l with
          | Some _ => str (rev cur) :: split_aux sep [] l' (length sep - 1)%nat
          | None => split_aux sep (c :: cur) l' O
          end
      end
  end.

Definition split (sep s : string) : list string :=
  split_aux (chars sep) [] (chars s) O.

(** [sep.join(l)] *)
Fixpoint join (sep : string) (l : list string) : string :=
  match l with
  | [] => ""
  | [x] => x
  | x :: l' => x +:+ sep +:+ join sep l'
  end.

(** [s.replace("\t", " " * 4)] *)
Fixpoint replace_tabs (l : list ascii) : list ascii :=
  match l with
  | [] => []
  | c :: l' => if ceq c TAB then repeat " "%char 4 ++ replace_tabs l'
               else c :: replace_tabs l'
  end.

End Py.

(** ** Regular expressions

    The patterns of the source, written as syntax trees and run by a
    backtracking matcher with the behaviour of Python's [re]: alternatives are
    tried left to right, repetitions are greedy, [.] is any character but a
    line feed, [$] holds at the end and before a final line feed. *)

Module Re.

Inductive re :=
| Eps
| Bol                         (* ^ *)
| Eol                         (* $ *)
| Lit (s : string)
| Cls (p : ascii -> bool)     (* one character of a class *)
| Star (p : ascii -> bool)    (* class* *)
| Plus (p : ascii -> bool)    (* class+ *)
| Cat (r1 r2 : re)
| Alt (r1 r2 : re)
| Grp (g : nat) (r : re).     (* capture group number g *)

Definition caps := list (nat * string).

Fixpoint star_greedy (p : ascii -> bool) (k : list ascii -> option caps)
  (inp : list ascii) : option caps :=
  match inp with
  | c :: inp' =>
      if p c then
        match star_greedy p k inp' with
        | Some r => Some r
        | None => k inp
        end
      else k inp
  | [] => k []
  end.

Fixpoint rmatch (n0 : nat) (r : re) (inp : list ascii) (cs : caps)
  (k : list ascii -> caps -> option caps) : option caps :=
  match r with
  | Eps => k inp cs
  | Bol => if (length inp =? n0)%nat then k inp cs else None
  | Eol =>
      match inp with
      | [] => k inp cs
      | [c] => if Py.ceq c Py.LF then k inp cs else None
      | _ => None
      end
  | Lit s =>
      match Py.strip_prefix (Py.chars s) inp with
      | Some rest => k rest cs
      | None => None
      end
  | Cls p =>
      match inp with
      | c :: rest => if p c then k rest cs else None
      | [] => None
      end
  | Star p => star_greedy p (fun rest => k rest cs) inp
  | Plus p =>
      match inp with
      | c :: rest => if p c then star_greedy p (fun rest' => k rest' cs) rest else None
      | [] => None
      end
  | Cat r1 r2 => rmatch n0 r1 inp cs (fun rest cs' => rmatch n0 r2 rest cs' k)
  | Alt r1 r2 =>
      match rmatch n0 r1 inp cs k with
      | Some x => Some x
      | None => rmatch n0 r2 inp cs k
      end
  | Grp g r1 =>
      rmatch n0 r1 inp cs (fun rest cs' =>
        k rest ((g, Py.str (take (length inp - length rest)%nat inp)) :: cs'))
  end.

Fixpoint search_from (n0 : nat) (r : re) (inp : list ascii) : option caps :=
  match rmatch n0 r inp [] (fun _ cs => Some cs) with
  | Some cs => Some cs
  | None =>
      match inp with
      | [] => None
      | _ :: inp' => search_from n0 r inp'
      end
  end.

(** A compiled pattern: the pattern text of the source, kept for reference,
    and its syntax tree. *)
Record pattern := compile { source : string; tree : re }.

(** [pattern.search(s)] *)
Definition search (p : pattern) (s : string) : option caps :=
  search_from (length (Py.chars s)) (tree p) (Py.chars s).

(** [bool(pattern.search(s))] *)
Definition matches (p : pattern) (s : string) : bool :=
  match search p s with Some _ => true | None => false end.

(** [m.group(g)] *)
Fixpoint group (cs : caps) (g : nat) : string :=
  match cs with
  | [] => ""
  | (g', s) :: cs' => if (g' =? g)%nat then s else group cs' g
  end.

Fixpoint seq (rs : list re) : re :=
  match rs with
  | [] => Eps
  | [r] => r
  | r :: rs' => Cat r (seq rs')
  end.

Fixpoint alts (rs : list re) : re :=
  match rs with
  | [] => Eps
  | [r] => r
  | r :: rs' => Alt r (alts rs')
  end.

(** Character classes. *)
Definition dot (c : ascii) : bool := negb (Py.ceq c Py.LF).
Definition is_ (a : ascii) (c : ascii) : bool := Py.ceq c a.
Definition space_tab (c : ascii) : bool := Py.ceq c " " || Py.ceq c Py.TAB.
Definition not_space_tab (c : ascii) : bool := negb (space_tab c).
Definition not_semicolon (c : ascii) : bool := negb (Py.ceq c ";").
Definition between (lo hi : nat) (c : ascii) : bool :=
  let n := nat_of_ascii c in ((lo <=? n) && (n <=? hi))%nat.
Definition lower (c : ascii) : bool := between 97 122 c.
Definition upper (c : ascii) : bool := between 65 90 c.
Definition digit (c : ascii) : bool := between 48 57 c.
(* [a-zA-Z_] *)
Definition ident_start (c : ascii) : bool := lower c || upper c || Py.ceq c "_".
(* [a-zA-Z0-9_] *)
Definition ident_char (c : ascii) : bool :=
  lower c || upper c || digit c || Py.ceq c "_".
(* [a-zA-Z0-9_ ,] *)
Definition alias_char (c : ascii) : bool :=
  ident_char c || Py.ceq c " " || Py.ceq c ",".

End Re.

(** ** Helpers for Python lists *)

Section FoldM.
Context {A B : Type} (f : B -> A -> result B).

(** A [for] loop whose body can raise: [b] holds the variables of the loop. *)
Fixpoint foldlM (b : B) (l : list A) : result B :=
  match l with
  | [] => OK b
  | a :: l' => b' ← f b a; foldlM b' l'
  end.
End FoldM.

(** [l[-1] = f(l[-1])]; an empty list raises [IndexError]. *)
Definition alter_last {A : Type} (f : A -> result A) (l : list A)
  : result (list A) :=
  match rev l with
  | [] => Raise IndexError
  | x :: r => y ← f x; OK (rev r ++ [y])
  end.

(** [enumerate(l)] starting at [n], with the index as an integer. *)
Fixpoint enumerate {A : Type} (n : Z) (l : list A) : list (Z * A) :=
  match l with
  | [] => []
  | a :: l' => (n, a) :: enumerate (n + 1) l'
  end.

(** The same with the index as a natural number, for indexing. *)
Fixpoint enumerate_from {A : Type} (n : nat) (l : list A) : list (nat * A) :=
  match l with
  | [] => []
  | a :: l' => (n, a) :: enumerate_from (S n) l'
  end.

(** ** Data formats *)

Definition IND_AMT : nat := 4.

(** Line-referenced code: [[line_number, code], ...] *)
Definition code_lines := list (Z * string).
(** Block comments: [[starting_line_number, [line, line, ...]], ...] *)
Definition block_comments := list (Z * list string).
(** Line comments: [[line_number, comment], ...] *)
Definition line_comments := list (Z * string).

(** Tree-formatted code: [[line_number, code, nested_code], ...]; the line
    number of a node made up by a pass is [None]. *)
#[warnings="-register-all"]
Inductive Node := node (line_no : option Z) (text : string) (children : list Node).

Definition node_line (n : Node) : option Z := match n with node l _ _ => l end.
Definition node_text (n : Node) : string := match n with node _ t _ => t end.
Definition node_children (n : Node) : list Node := match n with node _ _ c => c end.

(** [bool(l)] of a list. *)
Definition nonnil {A : Type} (l : list A) : bool :=
  match l with [] => false | _ => true end.

(** Emitted lines [[line_number, white_space, code]]. The closing brace of
    [curlify] has two more, unread, entries in the source. *)
Definition emitted := (option Z * string * string)%type.

(** ** parse_raw_code *)

Module Lexer.

(** The variables of the first loop of [parse_raw_code]. *)
Record lexer := mkLexer {
  out_code : code_lines;
  bcoms : block_comments;
  coms : line_comments;
  isBlockComment : bool;
  isQuotesOpen : bool;
  isComment : bool;
  cm1 : ascii
}.

Definition with_out_code v (s : lexer) :=
  mkLexer v (bcoms s) (coms s) (isBlockComment s) (isQuotesOpen s) (isComment s) (cm1 s).
Definition with_bcoms v (s : lexer) :=
  mkLexer (out_code s) v (coms s) (isBlockComment s) (isQuotesOpen s) (isComment s) (cm1 s).
Definition with_coms v (s : lexer) :=
  mkLexer (out_code s) (bcoms s) v (isBlockComment s) (isQuotesOpen s) (isComment s) (cm1 s).
Definition with_isBlockComment v (s : lexer) :=
  mkLexer (out_code s) (bcoms s) (coms s) v (isQuotesOpen s) (isComment s) (cm1 s).
Definition with_isQuotesOpen v (s : lexer) :=
  mkLexer (out_code s) (bcoms s) (coms s) (isBlockComment s) v (isComment s) (cm1 s).
Definition with_isComment v (s : lexer) :=
  mkLexer (out_code s) (bcoms s) (coms s) (isBlockComment s) (isQuotesOpen s) v (cm1 s).
Definition with_cm1 v (s : lexer) :=
  mkLexer (out_code s) (bcoms s) (coms s) (isBlockComment s) (isQuotesOpen s) (isComment s) v.

(** [x[-1][-1] = f(x[-1][-1])] on a list of [[line, text]]. *)
Definition alter_last_text {K : Type} (f : string -> string) (l : list (K * string))
  : result (list (K * string)) :=
  alter_last (fun e => OK (fst e, f (snd e))) l.

(** [bcoms[-1][-1][-1] = f(bcoms[-1][-1][-1])] *)
Definition alter_last_bcom_line (f : string -> string) (l : block_comments)
  : result block_comments :=
  alter_last (fun e => ls ← alter_last (fun t => OK (f t)) (snd e); OK (fst e, ls)) l.

(** The body of [for c in lines[nL]]. *)
Definition lex_char (nL : Z) (s : lexer) (c : ascii) : result lexer :=
  s ← (if isComment s then
         v ← alter_last_text (Py.add_char c) (coms s); OK (with_coms v s)
       else if isBlockComment s then
         v ← alter_last_bcom_line (Py.add_char c) (bcoms s); OK (with_bcoms v s)
       else
         v ← alter_last_text (Py.add_char c) (out_code s); OK (with_out_code v s));
  let isEscaped := Py.ceq (cm1 s) Py.BACKSLASH in
  let s := if Py.ceq c Py.DQUOTE
              && negb (isComment s || isBlockComment s || isEscaped)
           then with_isQuotesOpen (negb (isQuotesOpen s)) s else s in
  s ← (if Py.ceq (cm1 s) "/" && Py.ceq c "/"
          && negb (isQuotesOpen s || isComment s || isBlockComment s)
       then
         v ← alter_last_text (Py.drop_last 2) (out_code s);
         OK (with_coms (coms s ++ [(nL, Py.str [cm1 s; c])])
               (with_out_code v (with_isComment true s)))
       else OK s);
  s ← (if Py.ceq (cm1 s) "/" && Py.ceq c "*"
          && negb (isQuotesOpen s || isComment s || isBlockComment s)
       then
         v ← alter_last_text (Py.drop_last 2) (out_code s);
         let s := with_out_code v (with_isBlockComment true s) in
         match last (bcoms s) with
         | Some (n, _) =>
             if negb (n =? nL) then
               (* new block comment *)
               OK (with_bcoms (bcoms s ++ [(nL, [Py.str [cm1 s; c]])]) s)
             else
               (* multiple block comments on same line *)
               b ← alter_last_bcom_line (fun t => t +:+ Py.str [cm1 s; c]) (bcoms s);
               OK (with_bcoms b s)
         | None => OK (with_bcoms (bcoms s ++ [(nL, [Py.str [cm1 s; c]])]) s)
         end
       else OK s);
  let s := if Py.ceq (cm1 s) "*" && Py.ceq c "/"
              && negb (isQuotesOpen s || isComment s)
           then with_isBlockComment false s else s in
  OK (with_cm1 c s).

(** The body of [for nL in range(len(lines))]. *)
Definition lex_line (s : lexer) (e : Z * string) : result lexer :=
  let '(nL, line) := e in
  if negb (Py.nonempty (Py.strip line)) then OK s
  else
    let s := with_isComment false s in
    s ← (match last (out_code s) with
         | Some (_, t) =>
             if Py.nonempty t then OK (with_out_code (out_code s ++ [(nL, "")]) s)
             else v ← alter_last (fun e => OK (nL, snd e)) (out_code s);
                  OK (with_out_code v s)
         | None => OK (with_out_code (out_code s ++ [(nL, "")]) s)
         end);
    s ← (if isBlockComment s then
           v ← alter_last (fun e => OK (fst e, snd e ++ [""])) (bcoms s);
           OK (with_bcoms v s)
         else OK s);
    foldlM (lex_char nL) (with_cm1 Py.LF s) (Py.chars line).

Definition lexer0 : lexer := mkLexer [] [] [] false false false Py.LF.

End Lexer.

Definition re_spaces_tabs : Re.pattern :=
  Re.compile "^([ \t]*)(([^ \t]{1})|([^ \t]{1}.*[^ \t]{1}))([ \t]*)$" $
  Re.seq [Re.Bol; Re.Grp 1 (Re.Star Re.space_tab);
          Re.Grp 2 (Re.Alt (Re.Grp 3 (Re.Cls Re.not_space_tab))
                           (Re.Grp 4 (Re.seq [Re.Cls Re.not_space_tab;
                                              Re.Star Re.dot;
                                              Re.Cls Re.not_space_tab])));
          Re.Grp 5 (Re.Star Re.space_tab); Re.Eol].

(** The second loop: trailing blanks removed, leading tabs replaced, lines
    without a match dropped. *)
Fixpoint trim_code (out_code : code_lines) : code_lines :=
  match out_code with
  | [] => []
  | (n, t) :: rest =>
      match Re.search re_spaces_tabs t with
      | Some r =>
          (n, Py.str (Py.replace_tabs (Py.chars (Re.group r 1))) +:+ Re.group r 2)
            :: trim_code rest
      | None => trim_code rest
      end
  end.

Definition parse_raw_code (lines : list string)
  : result (code_lines * block_comments * line_comments) :=
  s ← foldlM Lexer.lex_line Lexer.lexer0 (enumerate 0 lines);
  OK (trim_code (Lexer.out_code s), Lexer.bcoms s, Lexer.coms s).

(** ** isCurly *)

Record counts := mkCounts {
  count_semicolons : nat;
  count_colons : nat;
  count_code_lines : nat
}.

(** The body of the loop of [isCurly]. *)
Definition isCurly_step (k : counts) (e : Z * string) : counts :=
  let code_line := snd e in
  if Py.nonempty code_line then
    if Py.ends_with code_line ";" then
      mkCounts (S (count_semicolons k)) (count_colons k) (S (count_code_lines k))
    else if Py.ends_with code_line ":" then
      mkCounts (count_semicolons k) (S (count_colons k)) (S (count_code_lines k))
    else mkCounts (count_semicolons k) (count_colons k) (S (count_code_lines k))
  else k.

Definition isCurly_max_lines (code : code_lines) : nat :=
  Z.to_nat (Z.min 50000 (Z.of_nat (length code))).

Definition isCurly (code : code_lines) : bool :=
  let k := fold_left isCurly_step (take (isCurly_max_lines code) code)
             (mkCounts 0 0 0) in
  (count_colons k <? count_semicolons k)%nat.

(** ** indent and curlify *)

Fixpoint indent_node (N : nat) (n : Node) : list emitted :=
  match n with
  | node l t ch =>
      (l, Py.spaces (N * IND_AMT), t) :: flat_map (indent_node (S N)) ch
  end.

Definition indent (code : list Node) (N : nat) : list emitted :=
  flat_map (indent_node N) code.

Fixpoint curlify_node (N : nat) (n : Node) : list emitted :=
  match n with
  | node l t ch =>
      if nonnil ch then
        (l, Py.spaces (N * IND_AMT), t +:+ " {")
          :: flat_map (curlify_node (S N)) ch
          ++ [(None, Py.spaces (N * IND_AMT), "}")]
      else [(l, Py.spaces (N * IND_AMT), t)]
  end.

Definition curlify (code : list Node) (N : nat) : list emitted :=
  flat_map (curlify_node N) code.

(** ** nest_indented *)

Definition re_indent : Re.pattern :=
  Re.compile "^([\s]*)(.*)" $
  Re.seq [Re.Bol; Re.Grp 1 (Re.Star Py.isspace); Re.Grp 2 (Re.Star Re.dot)].

(** [data_r = data; for nT in range(d*2): data_r = data_r[-1]] followed by
    [data_r.append(x)]. *)
Fixpoint append_at (d : nat) (x : Node) (data : list Node) : result (list Node) :=
  match d with
  | O => OK (data ++ [x])
  | S d' =>
      alter_last (fun n => ch ← append_at d' x (node_children n);
                           OK (node (node_line n) (node_text n) ch)) data
  end.

(** The same descent followed by [data_r[-1][-2] = f(data_r[-1][-2])]. *)
Fixpoint alter_text_at (d : nat) (f : string -> string) (data : list Node)
  : result (list Node) :=
  match d with
  | O => alter_last (fun n => OK (node (node_line n) (f (node_text n)) (node_children n))) data
  | S d' =>
      alter_last (fun n => ch ← alter_text_at d' f (node_children n);
                           OK (node (node_line n) (node_text n) ch)) data
  end.

(** [s[:-k]] for [k >= 0]: [s[:-0]] is [s[:0]], the empty string. *)
Definition slice_to_neg (k : nat) (s : string) : string :=
  if (k =? 0)%nat then "" else Py.drop_last k s.

Module Indented.

(** The variables of the loop of [nest_indented]; [nIp] is unbound in the
    source until the end of the first iteration and not read before. *)
Record state := mkState { line_cont : bool; data : list Node; nIp : nat }.

Definition step (st : state) (e : Z * string) : result state :=
  let '(line_num, line) := e in
  match Re.search re_indent line with
  | None => Raise AttributeError
  | Some r =>
      let white_space := Re.group r 1 in
      let char_space := Re.group r 2 in
      let nI := (Py.len white_space / IND_AMT)%nat in
      let leading_white_space := slice_to_neg (nIp st * IND_AMT) white_space in
      let char_space := if line_cont st then leading_white_space +:+ char_space
                        else char_space in
      let nI := if line_cont st then nIp st else nI in
      data' ← (if line_cont st then
                 (* add to existing line *)
                 alter_text_at nI (fun t => Py.drop_last 1 t +:+ char_space) (data st)
               else
                 (* append new line *)
                 append_at nI (node (Some line_num) char_space []) (data st));
      c ← Py.last_char char_space;
      OK (mkState (Py.ceq c Py.BACKSLASH) data' nI)
  end.

End Indented.

Definition nest_indented (code : code_lines) : result (list Node) :=
  st ← foldlM Indented.step (Indented.mkState false [] 0) code;
  OK (Indented.data st).

(** ** nest_curly *)

Definition re_access_modifier_raw : Re.pattern :=
  Re.compile "^( *)(public|private|protected)( *):$" $
  Re.seq [Re.Bol; Re.Grp 1 (Re.Star (Re.is_ " "));
          Re.Grp 2 (Re.alts [Re.Lit "public"; Re.Lit "private"; Re.Lit "protected"]);
          Re.Grp 3 (Re.Star (Re.is_ " ")); Re.Lit ":"; Re.Eol].

Definition re_switch_raw : Re.pattern :=
  Re.compile "^( *)(case( .*|'.'|)|default *):$" $
  Re.seq [Re.Bol; Re.Grp 1 (Re.Star (Re.is_ " "));
          Re.Grp 2 (Re.Alt
            (Re.Cat (Re.Lit "case")
               (Re.Grp 3 (Re.alts [Re.Cat (Re.Cls (Re.is_ " ")) (Re.Star Re.dot);
                                   Re.seq [Re.Lit "'"; Re.Cls Re.dot; Re.Lit "'"];
                                   Re.Eps])))
            (Re.Cat (Re.Lit "default") (Re.Star (Re.is_ " "))));
          Re.Lit ":"; Re.Eol].

Module Curly.

(** The variables of [nest_curly]. [c] and [cm1] start as the empty string,
    here [None]. *)
Record state := mkState {
  c : option ascii;
  cm1 : option ascii;
  nI : Z;
  code_buf : string;
  data : list Node;
  isParenOpen : bool;
  isQuotesOpen : bool;
  num_line : Z
}.

Definition with_chars c' cm1' (s : state) :=
  mkState c' cm1' (nI s) (code_buf s) (data s) (isParenOpen s) (isQuotesOpen s) (num_line s).
Definition with_nI v (s : state) :=
  mkState (c s) (cm1 s) v (code_buf s) (data s) (isParenOpen s) (isQuotesOpen s) (num_line s).
Definition with_code_buf v (s : state) :=
  mkState (c s) (cm1 s) (nI s) v (data s) (isParenOpen s) (isQuotesOpen s) (num_line s).
Definition with_data v (s : state) :=
  mkState (c s) (cm1 s) (nI s) (code_buf s) v (isParenOpen s) (isQuotesOpen s) (num_line s).
Definition with_isParenOpen v (s : state) :=
  mkState (c s) (cm1 s) (nI s) (code_buf s) (data s) v (isQuotesOpen s) (num_line s).
Definition with_isQuotesOpen v (s : state) :=
  mkState (c s) (cm1 s) (nI s) (code_buf s) (data s) (isParenOpen s) v (num_line s).
Definition with_num_line v (s : state) :=
  mkState (c s) (cm1 s) (nI s) (code_buf s) (data s) (isParenOpen s) (isQuotesOpen s) v.

(** [x == a] for a variable holding a character or the empty string. *)
Definition char_is (x : option ascii) (a : ascii) : bool :=
  match x with Some y => Py.ceq y a | None => false end.

(** [code_buf = _update_data(line, nI, code_buf, data)]: the node
    [[line, code_buf.strip(), []]] is appended [nI] levels down the last
    branch ([range(nI*2)] is empty for a negative [nI]) and the buffer is
    cleared. *)
Definition _update_data (line : Z) (s : state) : result state :=
  d ← append_at (Z.to_nat (nI s)) (node (Some line) (Py.strip (code_buf s)) []) (data s);
  OK (with_code_buf "" (with_data d s)).

(** [if nC == 0 and num_line: num_line = num_line - 1] *)
Definition attribute_to_previous (nC : nat) (s : state) : state :=
  if (nC =? 0)%nat && negb (num_line s =? 0) then with_num_line (num_line s - 1) s
  else s.

Inductive outcome := Exhausted | Broke | Caught.

(** The inner loop of the look-ahead, [for nCp1 in range(nC+1, len(codeLine))],
    on the text of line [nLp1]. *)
Fixpoint look_cols (text : list ascii) (len_codeLine : nat) (cols : list nat)
  (cp1 : ascii) : ascii * outcome :=
  match cols with
  | [] => (cp1, Exhausted)
  | nCp1 :: cols' =>
      match nth_error text nCp1 with
      | None => (cp1, Caught)
      | Some x =>
          if negb ((nCp1 =? len_codeLine - 1)%nat && negb (Py.ceq x Py.BACKSLASH))
          then (x, Broke)
          else look_cols text len_codeLine cols' x
      end
  end.

(** The outer loop, [for nLp1 in range(nL, len(code))]. *)
Fixpoint look_lines (texts : list string) (len_codeLine : nat) (cols : list nat)
  (cp1 : ascii) : ascii :=
  match texts with
  | [] => cp1
  | t :: texts' =>
      match look_cols (Py.chars t) len_codeLine cols cp1 with
      | (x, Exhausted) => look_lines texts' len_codeLine cols x
      | (x, _) => x
      end
  end.

(** The next character [cp1] after the colon at [nC] of line [nL]. *)
Definition look_ahead (code : code_lines) (nL : nat) (codeLine : string) (nC : nat)
  : ascii :=
  look_lines (map snd (drop nL code)) (Py.len codeLine)
    (seq (nC + 1) (Py.len codeLine - (nC + 1))) " "%char.

(** From [code_buf += c] to the end of the body of the loop over [nC]. *)
Definition append_char (code : code_lines) (nL : nat) (codeLine : string)
  (nC : nat) (x : ascii) (s : state) : result state :=
  let s := with_code_buf (Py.add_char x (code_buf s)) s in
  let append_data :=
    if negb (isQuotesOpen s) then
      if Py.ceq x ";" && negb (isParenOpen s) then true
      else if Py.ceq x ":"
              && (Re.matches re_access_modifier_raw (code_buf s)
                  || Re.matches re_switch_raw (code_buf s))
      then
        let cp1 := look_ahead code nL codeLine nC in
        negb (char_is (cm1 s) ":" || Py.ceq cp1 ":")
      else false
    else false in
  if append_data then
    let s := attribute_to_previous nC s in
    _update_data (num_line s) s
  else OK s.

(** The body of [for nC in range(len(codeLine))]. *)
Definition step (code : code_lines) (nL : nat) (codeLine : string)
  (s : state) (e : nat * ascii) : result state :=
  let '(nC, x) := e in
  (* The line is being continued. Skip ahead to next line *)
  if Py.ceq x Py.BACKSLASH && (nC =? Py.len codeLine - 1)%nat then OK s
  else
    let s := with_chars (Some x) (c s) s in
    let isEscaped := char_is (cm1 s) Py.BACKSLASH && negb (nC =? 0)%nat in
    let s := if Py.ceq x Py.DQUOTE && negb isEscaped
             then with_isQuotesOpen (negb (isQuotesOpen s)) s else s in
    if negb (isQuotesOpen s) then
      if Py.ceq x " " && char_is (cm1 s) " " then OK s
      else if Py.ceq x "(" then
        append_char code nL codeLine nC x (with_isParenOpen true s)
      else if Py.ceq x ")" then
        append_char code nL codeLine nC x (with_isParenOpen false s)
      else if Py.ceq x "{" || Py.ceq x "}" then
        let s := if Py.ceq x "{" then attribute_to_previous nC s else s in
        s ← _update_data (num_line s) s;
        OK (if Py.ceq x "{" then with_nI (nI s + 1) s else with_nI (nI s - 1) s)
      else append_char code nL codeLine nC x s
    else append_char code nL codeLine nC x s.

(** The body of [for nL in range(len(code))]. *)
Definition line (code : code_lines) (s : state) (e : nat * (Z * string))
  : result state :=
  let '(nL, (n, codeLine)) := e in
  let s := with_num_line n s in
  match codeLine with
  | EmptyString => OK s
  | String x _ =>
      let isMacro := Py.ceq x "#" in
      if isMacro then
        s ← (if Py.nonempty (Py.strip (code_buf s))
             then _update_data (num_line s - 1) s else OK s);
        let s := with_code_buf codeLine s in
        _update_data (num_line s) s
      else
        foldlM (step code nL codeLine) s (enumerate_from 0 (Py.chars codeLine))
  end.

Definition state0 : state := mkState None None 0 "" [] false false 0.

End Curly.

Definition nest_curly (code : code_lines) : result (list Node) :=
  s ← foldlM (Curly.line code) Curly.state0 (enumerate_from 0 code);
  OK (Curly.data s).

(** ** The passes over the tree *)

Definition re_access_modifier : Re.pattern :=
  Re.compile "^(public|private|protected)( *):$" $
  Re.seq [Re.Bol;
          Re.Grp 1 (Re.alts [Re.Lit "public"; Re.Lit "private"; Re.Lit "protected"]);
          Re.Grp 2 (Re.Star (Re.is_ " ")); Re.Lit ":"; Re.Eol].

Definition re_switch : Re.pattern :=
  Re.compile "^(case( .*|'.'|)|default *):$" $
  Re.seq [Re.Bol;
          Re.Grp 1 (Re.Alt
            (Re.Cat (Re.Lit "case")
               (Re.Grp 2 (Re.alts [Re.Cat (Re.Cls (Re.is_ " ")) (Re.Star Re.dot);
                                   Re.seq [Re.Lit "'"; Re.Cls Re.dot; Re.Lit "'"];
                                   Re.Eps])))
            (Re.Cat (Re.Lit "default") (Re.Star (Re.is_ " "))));
          Re.Lit ":"; Re.Eol].

(** [_pattern_match], and the same test where it is written in line. *)
Definition _pattern_match (s : string) : bool :=
  Re.matches re_access_modifier s || Re.matches re_switch s.

(** *** add_colon *)

Fixpoint add_colon_node (n : Node) : Node :=
  match n with
  | node l t ch =>
      let '(l, t) :=
        if nonnil ch then
          if Py.nonempty t then
            if negb (_pattern_match t) then (l, t +:+ ":") else (l, t)
          else (None, t +:+ ":")
        else (l, t) in
      node l t (map add_colon_node ch)
  end.

Definition add_colon (code : list Node) : list Node := map add_colon_node code.

(** *** rem_special_indent *)

Fixpoint rem_special_indent_node (n : Node) : list Node :=
  match n with
  | node l t ch =>
      if nonnil ch && _pattern_match t then
        node l t [] :: flat_map rem_special_indent_node ch
      else [node l t (flat_map rem_special_indent_node ch)]
  end.

Definition rem_special_indent (code : list Node) : list Node :=
  flat_map rem_special_indent_node code.

(** *** add_special_indent *)

Section AddSpecialIndent.
(** [rec n] is [add_special_indent(n[2])]. *)
Variable rec : Node -> result (list Node).

(** The body of the loop; the variables are [out_code] and [isIndented]. *)
Definition add_special_indent_step (st : list Node * bool) (n : Node)
  : result (list Node * bool) :=
  let '(out_code, isIndented) := st in
  let isKeyWord := _pattern_match (node_text n) in
  ch ← rec n;
  let branch := node (node_line n) (node_text n) ch in
  if isKeyWord then OK (out_code ++ [branch], true)
  else if isIndented then
    (* out_code[-1][-1].append(branch) *)
    out ← append_at 1 branch out_code; OK (out, isIndented)
  else OK (out_code ++ [branch], isIndented).
End AddSpecialIndent.

Fixpoint add_special_indent_in (n : Node) : result (list Node) :=
  match n with
  | node _ _ ch =>
      st ← foldlM (add_special_indent_step add_special_indent_in) ([], false) ch;
      OK (fst st)
  end.

Definition add_special_indent (code : list Node) : result (list Node) :=
  st ← foldlM (add_special_indent_step add_special_indent_in) ([], false) code;
  OK (fst st).

(** *** add_semicolon *)

Definition re_macro : Re.pattern :=
  Re.compile "^#.*$" $ Re.seq [Re.Bol; Re.Lit "#"; Re.Star Re.dot; Re.Eol].

Definition re_enum : Re.pattern :=
  Re.compile "^enum( .*|,.*|)$" $
  Re.seq [Re.Bol; Re.Lit "enum";
          Re.Grp 1 (Re.alts [Re.Cat (Re.Cls (Re.is_ " ")) (Re.Star Re.dot);
                             Re.Cat (Re.Cls (Re.is_ ",")) (Re.Star Re.dot);
                             Re.Eps]);
          Re.Eol].

Fixpoint add_semicolon_node (n : Node) : Node :=
  match n with
  | node l t ch =>
      if nonnil ch then
        if negb (Re.matches re_enum t) then node l t (map add_semicolon_node ch)
        else n
      else if Py.nonempty t then
        if negb (Re.matches re_macro t) then node l (t +:+ ";") ch else n
      else n
  end.

Definition add_semicolon (code : list Node) : list Node :=
  map add_semicolon_node code.

(** *** rem_colon *)

Fixpoint rem_colon_node (n : Node) : Node :=
  match n with
  | node l t ch =>
      if Py.nonempty t
         && negb (Re.matches re_access_modifier t || Re.matches re_switch t
                  || Py.ceq (match t with String x _ => x | _ => " "%char end) "#")
         && Py.ends_with t ":"
      then
        let t := Py.drop_last 1 t in
        match ch with
        | [] =>
            (* branch[2] = [[None, "", []]], which rem_colon returns as it is:
               its text is empty and it has no children *)
            node l t [node None "" []]
        | _ => node l t (map rem_colon_node ch)
        end
      else node l t (map rem_colon_node ch)
  end.

Definition rem_colon (code : list Node) : list Node := map rem_colon_node code.

(** *** rem_semicolon *)

Fixpoint rem_semicolon_node (n : Node) : Node :=
  match n with
  | node l t ch =>
      let t := if Py.nonempty t && (Py.ends_with t ";" && negb (nonnil ch))
               then Py.drop_last 1 t else t in
      node l t (map rem_semicolon_node ch)
  end.

Definition rem_semicolon (code : list Node) : list Node :=
  map rem_semicolon_node code.

(** *** The renumbering dictionaries

    [mv] maps the line number of a node (or the [None] of a made-up node) to
    a line number or [None]. *)

Abbreviation moves := (gmap (option Z) (option Z)).

(** [{**a, **b}] *)
Definition dict_merge (a b : moves) : moves := b ∪ a.

(** *** to_indented_aliases *)

Definition re_class_curly : Re.pattern :=
  Re.compile "^(class|struct|typedef|enum|union)( [^;]*|)$" $
  Re.seq [Re.Bol;
          Re.Grp 1 (Re.alts [Re.Lit "class"; Re.Lit "struct"; Re.Lit "typedef";
                             Re.Lit "enum"; Re.Lit "union"]);
          Re.Grp 2 (Re.Alt (Re.Cat (Re.Cls (Re.is_ " ")) (Re.Star Re.not_semicolon))
                           Re.Eps);
          Re.Eol].

Module IndentedAliases.

(** [_f(_branch0, _branch1)] *)
Definition _f (_branch0 _branch1 : Node) : Node * bool :=
  if Re.matches re_class_curly (node_text _branch0) then
    let child_parrents := Py.split ":" (node_text _branch0) in
    let parrents :=
      match child_parrents with
      | [_; p] => ": " +:+ Py.strip p
      | _ => ""
      end in
    let child := hd "" child_parrents in
    let aliases :=
      if Py.nonempty (Py.drop_last 1 (node_text _branch1))
      then ", " +:+ Py.drop_last 1 (node_text _branch1) else "" in
    (node (node_line _branch0) (child +:+ aliases +:+ parrents)
          (node_children _branch0), true)
  else (_branch0, false).

End IndentedAliases.

Section JoinSiblings.
(** The loop shared, word for word, by [to_indented_aliases] and
    [to_indented_do_while]; [_f] is the local function of each and [rec n]
    is the pass applied to [n[2]]. *)
Variable _f : Node -> Node -> Node * bool.
Variable rec : Node -> list Node * moves.

Fixpoint join_loop (code : list Node) (skipNext : bool)
  (out_code : list Node) (mv : moves) : list Node * moves :=
  match code with
  | [] => (out_code, mv)
  | b0 :: rest =>
      if skipNext then join_loop rest false out_code mv
      else
        let '(new_code, skipNext, mv) :=
          match rest with
          | b1 :: _ =>
              let '(new_code, skipNext) := _f b0 b1 in
              (new_code, skipNext,
               if skipNext then <[node_line b1 := node_line b0]> mv else mv)
          | [] => (b0, false, mv) (* except IndexError *)
          end in
        (* new_code[2] is code[nL][2] in both branches of _f *)
        let '(nested_code, nested_mv) := rec b0 in
        join_loop rest skipNext
          (out_code ++ [node (node_line new_code) (node_text new_code) nested_code])
          (dict_merge mv nested_mv)
  end.
End JoinSiblings.

Fixpoint to_indented_aliases_in (n : Node) : list Node * moves :=
  match n with
  | node _ _ ch =>
      join_loop IndentedAliases._f to_indented_aliases_in ch false [] ∅
  end.

Definition to_indented_aliases (code : list Node) : list Node * moves :=
  join_loop IndentedAliases._f to_indented_aliases_in code false [] ∅.

(** *** to_indented_do_while *)

Definition re_while : Re.pattern :=
  Re.compile "^(while *\(.+\))(;)$" $
  Re.seq [Re.Bol;
          Re.Grp 1 (Re.seq [Re.Lit "while"; Re.Star (Re.is_ " "); Re.Lit "(";
                            Re.Plus Re.dot; Re.Lit ")"]);
          Re.Grp 2 (Re.Lit ";"); Re.Eol].

Module IndentedDoWhile.

Definition _f (_branch0 _branch1 : Node) : Node * bool :=
  match Re.search re_while (node_text _branch1) with
  | Some r =>
      if String.eqb (node_text _branch0) "do" then
        (node (node_line _branch0) (node_text _branch0 +:+ " " +:+ Re.group r 1)
              (node_children _branch0), true)
      else (_branch0, false)
  | None => (_branch0, false)
  end.

End IndentedDoWhile.

Fixpoint to_indented_do_while_in (n : Node) : list Node * moves :=
  match n with
  | node _ _ ch =>
      join_loop IndentedDoWhile._f to_indented_do_while_in ch false [] ∅
  end.

Definition to_indented_do_while (code : list Node) : list Node * moves :=
  join_loop IndentedDoWhile._f to_indented_do_while_in code false [] ∅.

(** *** to_curly_aliases and to_curly_do_while *)

Definition re_class_indented : Re.pattern :=
  Re.compile "^(class|struct|typedef|enum|union)( [^;]*|,[^;]*|)$" $
  Re.seq [Re.Bol;
          Re.Grp 1 (Re.alts [Re.Lit "class"; Re.Lit "struct"; Re.Lit "typedef";
                             Re.Lit "enum"; Re.Lit "union"]);
          Re.Grp 2 (Re.alts [Re.Cat (Re.Cls (Re.is_ " ")) (Re.Star Re.not_semicolon);
                             Re.Cat (Re.Cls (Re.is_ ",")) (Re.Star Re.not_semicolon);
                             Re.Eps]);
          Re.Eol].

Definition re_do_while : Re.pattern :=
  Re.compile "^(do) (while *\(.+\))$" $
  Re.seq [Re.Bol; Re.Grp 1 (Re.Lit "do"); Re.Lit " ";
          Re.Grp 2 (Re.seq [Re.Lit "while"; Re.Star (Re.is_ " "); Re.Lit "(";
                            Re.Plus Re.dot; Re.Lit ")"]);
          Re.Eol].

Module CurlyAliases.

(** [_f(_branch0)], without the unchanged [inner_code]: the text of the
    node and the text of the line after its block. *)
Definition _f (_branch0 : Node) : string * string :=
  if Re.matches re_class_indented (node_text _branch0) then
    let child_aliases_parrents := Py.split ":" (node_text _branch0) in
    let child_aliases := Py.split ", " (hd "" child_aliases_parrents) in
    let child_parrents := hd "" child_aliases in
    let child_parrents :=
      match child_aliases_parrents with
      | [_; p] => child_parrents +:+ (": " +:+ Py.strip p)
      | _ => child_parrents
      end in
    let aliases :=
      if (2 <=? length child_aliases)%nat
      then Py.join ", " (map Py.strip (tl child_aliases)) +:+ ";"
      else ";" in
    (child_parrents, aliases)
  else (node_text _branch0, "").

End CurlyAliases.

Module CurlyDoWhile.

Definition _f (_branch0 : Node) : string * string :=
  match Re.search re_do_while (node_text _branch0) with
  | Some r => (Re.group r 1, Re.group r 2 +:+ ";")
  | None => (node_text _branch0, "")
  end.

End CurlyDoWhile.

Section SplitNodes.
(** The loop shared, word for word, by [to_curly_aliases] and
    [to_curly_do_while]. *)
Variable _f : Node -> string * string.
Variable rec : Node -> list Node * moves.

Definition split_step (st : list Node * moves) (n : Node) : list Node * moves :=
  let '(out_code, mv) := st in
  let res := _f n in
  let '(nested_code, ch) := rec n in
  let out_code := out_code ++ [node (node_line n) (fst res) nested_code] in
  let mv := dict_merge mv ch in
  if Py.nonempty (snd res) then
    (out_code ++ [node (node_line n) (snd res) []], <[node_line n := None]> mv)
  else (out_code, mv).
End SplitNodes.

Fixpoint to_curly_aliases_in (n : Node) : list Node * moves :=
  match n with
  | node _ _ ch =>
      fold_left (split_step CurlyAliases._f to_curly_aliases_in) ch ([], ∅)
  end.

Definition to_curly_aliases (code : list Node) : list Node * moves :=
  fold_left (split_step CurlyAliases._f to_curly_aliases_in) code ([], ∅).

Fixpoint to_curly_do_while_in (n : Node) : list Node * moves :=
  match n with
  | node _ _ ch =>
      fold_left (split_step CurlyDoWhile._f to_curly_do_while_in) ch ([], ∅)
  end.

Definition to_curly_do_while (code : list Node) : list Node * moves :=
  fold_left (split_step CurlyDoWhile._f to_curly_do_while_in) code ([], ∅).

(** ** merge_comments *)

(** An output line [[white_space, code, block_comments, line_comments]]. The
    third entry is the empty string ([None]) or a rolled-up block comment
    before [block_comments_expand], and a string after it. *)
Record out_line (B : Type) := Line {
  white_space : string;
  code_text : string;
  block_comment : B;
  line_comment : string
}.
Arguments Line {B}.
Arguments white_space {B}.
Arguments code_text {B}.
Arguments block_comment {B}.
Arguments line_comment {B}.

(** Keys count 1/1024ths of a line. *)
Definition key_of_line (n : Z) : Z := 1024 * n.

Definition has_key {V : Type} (k : Z) (d : gmap Z V) : bool :=
  match d !! k with Some _ => true | None => false end.

(** The body of the loop that fills [code_d]; the variables are [code_d] and
    [key]. *)
Definition code_d_step (st : gmap Z (string * string) * Z) (l : emitted)
  : gmap Z (string * string) * Z :=
  let '(code_d, key) := st in
  let '(l0, l1, l2) := l in
  let last_key := key in
  let key :=
    match l0 with
    | None => last_key + 1
    | Some n => if has_key (key_of_line n) code_d then last_key + 1
                else key_of_line n
    end in
  (<[key := (l1, l2)]> code_d, key).

(** The key of a comment of line [l0]: [ch[l0]] when it is there and true,
    else [l0]. *)
Definition comment_key (ch : moves) (l0 : Z) : Z :=
  match ch !! Some l0 with
  | Some (Some z) => if z =? 0 then key_of_line l0 else key_of_line z
  | Some None => key_of_line l0
  | None => key_of_line l0 (* except KeyError *)
  end.

Definition comment_dict {V : Type} (ch : moves) (l : list (Z * V)) : gmap Z V :=
  fold_left (fun d e => <[comment_key ch (fst e) := snd e]> d) l ∅.

Definition merged := out_line (option (list string)).

(** The body of the loop over [all_keys]. *)
Definition merge_step (code_d : gmap Z (string * string))
  (bcom_d : gmap Z (list string)) (com_d : gmap Z string)
  (out_code : list merged) (N : Z) : list merged :=
  let s0 := match code_d !! N with Some v => fst v | None => "" end in
  let s1 := match code_d !! N with Some v => snd v | None => "" end in
  let s2 := bcom_d !! N in
  let s3 := match com_d !! N with Some v => v | None => "" end in
  (* if line not blank, append it *)
  if Py.nonempty s0 || Py.nonempty s1 || bool_decide (s2 ≠ None) || Py.nonempty s3
  then out_code ++ [Line s0 s1 s2 s3] else out_code.

(** The last loop, from the bottom up; the second component is [spaces]. *)
Fixpoint align_comments (out_code : list merged) : list merged * string :=
  match out_code with
  | [] => ([], "")
  | r :: rest =>
      let '(rest, spaces) := align_comments rest in
      if negb (Py.nonempty (code_text r)) then
        (Line spaces (code_text r) (block_comment r) (line_comment r) :: rest, spaces)
      else (r :: rest, white_space r)
  end.

Definition merge_comments (code : list emitted) (bcoms : block_comments)
  (coms : line_comments) (ch : moves) : list merged :=
  let code_d := fst (fold_left code_d_step code (∅, -1024)) in
  let bcom_d := comment_dict ch bcoms in
  let com_d := comment_dict ch coms in
  let all_keys :=
    merge_sort Z.le (elements (dom code_d ∪ dom bcom_d ∪ dom com_d)) in
  let out_code := fold_left (merge_step code_d bcom_d com_d) all_keys [] in
  fst (align_comments out_code).

(** ** block_comments_expand *)

Definition printed := out_line string.

Definition block_comments_expand_line (r : merged) : list printed :=
  match block_comment r with
  | Some (first :: more) =>
      Line (white_space r) (code_text r) first (line_comment r)
        :: map (fun b => Line (white_space r) "" b "") more
  | _ => [Line (white_space r) (code_text r) "" (line_comment r)]
  end.

Definition block_comments_expand (code : list merged) : list printed :=
  flat_map block_comments_expand_line code.

(** ** cosmetic_lines *)

Definition alias : Re.pattern :=
  Re.compile "^([a-zA-Z_]{1}[a-zA-Z0-9_]* *(,[a-zA-Z0-9_ ,]+|);|;)" $
  Re.seq [Re.Bol;
          Re.Grp 1 (Re.Alt
            (Re.seq [Re.Cls Re.ident_start; Re.Star Re.ident_char;
                     Re.Star (Re.is_ " ");
                     Re.Grp 2 (Re.Alt (Re.Cat (Re.Cls (Re.is_ ","))
                                              (Re.Plus Re.alias_char))
                                      Re.Eps);
                     Re.Lit ";"])
            (Re.Lit ";"))].

(** [sum(map(bool, map(str.strip, code0[n])))] as a truth value. *)
Definition not_blank (r : printed) : bool :=
  Py.nonempty (Py.strip (white_space r)) || Py.nonempty (Py.strip (code_text r))
  || Py.nonempty (Py.strip (block_comment r))
  || Py.nonempty (Py.strip (line_comment r)).

(** [(" " + s)[-1]] *)
Definition last_or_space (s : string) : ascii :=
  match rev (Py.chars s) with
  | x :: _ => x
  | [] => " "%char
  end.

(** The alias line [r] put behind the closing brace of [q]. *)
Definition drag (q r : printed) : printed :=
  Line (white_space q)
       (code_text q +:+ (if (1 <? Py.len (code_text r))%nat then " " else "")
          +:+ code_text r)
       (block_comment q +:+ block_comment r)
       (line_comment q +:+ line_comment r).

(** The body of the loop that drags aliases back behind the closing curly
    bracket; the variables are [code] and [prev_char], which is unbound
    ([None]) until the end of the first iteration. *)
Definition drag_step (st : list printed * option ascii) (r : printed)
  : result (list printed * option ascii) :=
  let '(code, prev_char) := st in
  code ← (if Re.matches alias (code_text r) then
            match prev_char with
            | None => Raise UnboundLocalError
            | Some p =>
                if Py.ceq p "}" then alter_last (fun q => OK (drag q r)) code
                else OK (code ++ [r])
            end
          else OK (code ++ [r]));
  OK (code, Some (last_or_space (code_text r))).

Definition drag_aliases (code1 : list printed) : result (list printed) :=
  st ← foldlM drag_step ([], None) code1; OK (fst st).

Inductive label := macro | close_brace | code_label | comment.

Definition label_eqb (a b : option label) : bool :=
  match a, b with
  | Some macro, Some macro | Some close_brace, Some close_brace
  | Some code_label, Some code_label | Some comment, Some comment => true
  | None, None => true
  | _, _ => false
  end.

Definition label_of (r : printed) : option label :=
  match code_text r with
  | String x _ =>
      if Py.ceq x "#" then Some macro
      else if Py.ceq x "}" then Some close_brace
      else Some code_label
  | EmptyString =>
      if Py.nonempty (block_comment r) || Py.nonempty (line_comment r)
      then Some comment else None
  end.

(** [insert_line[n]] after the loop that looks two lines ahead. *)
Definition insert_line_at (depth : list nat) (label : list (option label)) (n : nat)
  : bool :=
  let i0 := nth n depth O in
  let l0 := mjoin (label !! n) in
  let i1 := depth !! (n + 1)%nat in
  let l1 := mjoin (label !! (n + 1)%nat) in
  let i2 := depth !! (n + 2)%nat in
  let eq a b := label_eqb a (Some b) in
  let first :=
    match i1 with
    | Some i1 =>
        (* Only add spaces when the next item is not indented. *)
        if (i1 =? 0)%nat then
          (* Add space for certain changes in content type. *)
          if (eq l0 code_label && eq l1 comment)
             || (eq l0 close_brace && eq l1 comment)
             || (eq l0 close_brace && eq l1 code_label)
             || (eq l0 macro && eq l1 comment)
             || (eq l0 macro && eq l1 code_label)
             || (eq l0 comment && eq l1 macro)
             || (eq l0 comment && eq l1 code_label)
             || (eq l0 code_label && eq l1 macro)
          then true
          (* Examine consecutive code blocks *)
          else if (eq l0 code_label || eq l0 close_brace) && eq l1 code_label then
            (* Add space if indention will decrease. *)
            if (i1 <? i0)%nat then true
            (* Add space if next code section is a block of code. *)
            else match i2 with Some i2 => (i1 <? i2)%nat | None => false end
          else false
        else false
    | None => false
    end in
  (* Add blank at very end. *)
  match i1, i2 with
  | None, None => true
  | _, _ => first
  end.

Definition blank_line : printed := Line "" "" "" "".

Definition cosmetic_lines (code0 : list printed) : result (list printed) :=
  (* strip any extra spaces from input *)
  let code1 := filter (fun r => not_blank r = true) code0 in
  (* drag aliases back behind closing curly bracket *)
  code ← drag_aliases code1;
  let depth := map (fun r => Py.len (white_space r)) code in
  let label := map label_of code in
  (* insert new lines *)
  OK (flat_map (fun e => if insert_line_at depth label (fst e)
                          then [snd e; blank_line] else [snd e])
               (enumerate_from 0 code)).

(** ** code_join and convert *)

Definition code_join_line (r : printed) : string :=
  white_space r +:+ code_text r
  +:+ (if Py.nonempty (code_text r)
          && (Py.nonempty (block_comment r) || Py.nonempty (line_comment r))
       then " " else "")
  +:+ block_comment r
  +:+ (if Py.nonempty (block_comment r) && Py.nonempty (line_comment r)
       then " " else "")
  +:+ line_comment r.

Definition code_join (code : list printed) : string :=
  Py.join Py.nl (map code_join_line code).

(** [convert(raw_code, make_indented)]: [make_indented] is [None] (detect),
    [Some true] (force indentation syntax) or [Some false] (force curly
    braces). *)
Definition convert (raw_code : string) (make_indented : option bool)
  : result string :=
  '(code, bcoms, coms) ← parse_raw_code (Py.splitlines raw_code);
  let make_indented :=
    match make_indented with
    | None => isCurly code
    | Some b => b
    end in
  '(c8, mv) ←
    (if make_indented then
       c2 ← nest_curly code;
       let '(c3, mv1) := to_indented_aliases c2 in
       let '(c4, mv2) := to_indented_do_while c3 in
       c5 ← add_special_indent c4;
       let c6 := rem_semicolon c5 in
       let c7 := add_colon c6 in
       OK (indent c7 0, dict_merge mv1 mv2)
     else
       c2 ← nest_indented code;
       let c3 := rem_colon c2 in
       let c4 := add_semicolon c3 in
       let c5 := rem_special_indent c4 in
       let '(c6, mv2) := to_curly_do_while c5 in
       let '(c7, mv1) := to_curly_aliases c6 in
       OK (curlify c7 0, dict_merge mv1 mv2));
  let c9 := merge_comments c8 bcoms coms mv in
  let c10 := block_comments_expand c9 in
  c11 ← cosmetic_lines c10;
  OK (code_join c11).

(** ** Notions used to state the properties *)

(** A source text given by its lines. *)
Definition text_of (lines : list string) : string := Py.join Py.nl lines.

(** A code line with non-empty text whose last character is [x]. *)
Definition ends_in (x : ascii) (e : Z * string) : bool :=
  Py.nonempty (snd e) && Py.ends_with (snd e) x.

(** The number of such lines, as the specification counts them. *)
Definition count_ending (x : ascii) (code : code_lines) : nat :=
  length (List.filter (ends_in x) code).

(** The comments of a text: its line comments, then its block comments, as
    [parse_raw_code] separates them from the code. *)
Definition comment_texts (s : string) : result (list string) :=
  '(_, bcoms, coms) ← parse_raw_code (Py.splitlines s);
  OK (map snd coms ++ map (fun b => Py.join Py.nl (snd b)) bcoms).


(** The lines of a text that are not blank. *)
Definition nonblank_lines (s : string) : list string :=
  List.filter (fun l => Py.nonempty (Py.strip l)) (Py.splitlines s).


(** ** Notions used to state the further properties *)

(** The last branch of [data] is at least [d] levels deep: the descent
    [data_r = data_r[-1]], repeated [2 * d] times, raises nothing. *)
Fixpoint deep (d : nat) (data : list Node) : Prop :=
  match d with
  | O => True
  | S d' =>
      match last data with
      | Some n => deep d' (node_children n)
      | None => False
      end
  end.

(** What [nest_curly] keeps: the tree is as deep as the nesting level. *)
Definition curly_inv (s : Curly.state) : Prop :=
  deep (Z.to_nat (Curly.nI s)) (Curly.data s).

(** Between two lines: an open block comment has a last entry, and every
    entry has at least one line. *)
Definition lexer_inv (s : Lexer.lexer) : Prop :=
  (Lexer.isBlockComment s = true -> Lexer.bcoms s <> [])
  /\ Forall (fun e => snd e <> []) (Lexer.bcoms s).

(** Inside a line: moreover the code has a last entry, and an open line
    comment has one. *)
Definition lexer_inv_line (s : Lexer.lexer) : Prop :=
  lexer_inv s /\ Lexer.out_code s <> []
  /\ (Lexer.isComment s = true -> Lexer.coms s <> []).

(** Between two lines, before line [n]: every stream has strictly increasing
    line numbers, all below [n]. *)
Definition numbered_below (n : Z) (s : Lexer.lexer) : Prop :=
  (StronglySorted Z.lt (map fst (Lexer.out_code s))
   /\ Forall (fun x => x < n) (map fst (Lexer.out_code s)))
  /\ (StronglySorted Z.lt (map fst (Lexer.bcoms s))
      /\ Forall (fun x => x < n) (map fst (Lexer.bcoms s)))
  /\ (StronglySorted Z.lt (map fst (Lexer.coms s))
      /\ Forall (fun x => x < n) (map fst (Lexer.coms s))).

(** Inside line [nL]. *)
Definition numbered_upto (nL : Z) (s : Lexer.lexer) : Prop :=
  (StronglySorted Z.lt (map fst (Lexer.out_code s))
   /\ Forall (fun x => x <= nL) (map fst (Lexer.out_code s)))
  /\ (StronglySorted Z.lt (map fst (Lexer.bcoms s))
      /\ Forall (fun x => x <= nL) (map fst (Lexer.bcoms s)))
  /\ (StronglySorted Z.lt (map fst (Lexer.coms s))
      /\ Forall (fun x => x <= nL) (map fst (Lexer.coms s))
      /\ (Lexer.isComment s = false
          -> Forall (fun x => x < nL) (map fst (Lexer.coms s)))).

(** The number of nodes of a tree, and of a list of trees. *)
Fixpoint node_count (n : Node) : nat :=
  match n with node _ _ ch => S (list_sum (map node_count ch)) end.

Definition forest_size (code : list Node) : nat := list_sum (map node_count code).

(** What the loop of [add_special_indent] keeps, for the node count [k] of
    the nodes read so far. *)
Definition size_loop_inv (st : list Node * bool) (k : nat) : Prop :=
  forest_size (fst st) = k /\ (snd st = true -> fst st <> []).

(** The recursive call on the children of [n] returns and keeps their
    number. *)
Definition size_rec_ok (rec : Node -> result (list Node)) (n : Node) : Prop :=
  exists ch, rec n = OK ch /\ forest_size ch = forest_size (node_children n).

(** No node with the text of an access or switch label has children. *)
Fixpoint labels_are_leaves (n : Node) : bool :=
  match n with
  | node _ t ch =>
      (negb (_pattern_match t) || negb (nonnil ch)) && forallb labels_are_leaves ch
  end.

(** What holds of the variables of the loop after the nodes [pre]. *)
Definition indent_loop_inv (st : list Node * bool) (pre : list Node) : Prop :=
  rem_special_indent (fst st) = pre
  /\ (snd st = true ->
      exists out0 l t ch, fst st = out0 ++ [node l t ch] /\ _pattern_match t = true).

(** The recursive call on the children of [n] returns a list that
    [rem_special_indent] turns back into the children. *)
Definition indent_rec_ok (rec : Node -> result (list Node)) (n : Node) : Prop :=
  labels_are_leaves n = true
  /\ exists ch, rec n = OK ch /\ rem_special_indent ch = node_children n.

(** No leaf has a text ending in a semicolon. *)
Fixpoint no_semicolon_leaf (n : Node) : bool :=
  match n with
  | node _ t ch =>
      (nonnil ch || negb (Py.ends_with t ";")) && forallb no_semicolon_leaf ch
  end.

(** [t[0] == "#"] for a text that is not empty. *)
Definition starts_with_hash (t : string) : bool :=
  Py.ceq (match t with String x _ => x | _ => " "%char end) "#".

(** A tree that [add_colon] changes only by colons that [rem_colon] takes
    away again. *)
Fixpoint colon_free (n : Node) : bool :=
  match n with
  | node l t ch =>
      forallb colon_free ch
      && (if nonnil ch then
            if Py.nonempty t then
              _pattern_match t
              || (negb (_pattern_match (t +:+ ":")) && negb (starts_with_hash t))
            else match l with None => true | Some _ => false end
          else
            negb (Py.ends_with t ":") || _pattern_match t
            || negb (Py.nonempty t) || starts_with_hash t)
  end.

(** The number of nodes with children. *)
Fixpoint block_count (n : Node) : nat :=
  match n with
  | node _ _ ch => ((if nonnil ch then 1 else 0) + list_sum (map block_count ch))%nat
  end.

Definition forest_blocks (code : list Node) : nat := list_sum (map block_count code).

(** The white space of an emitted line is [4 * k] spaces for a [k >= N]. *)
Definition on_ladder (N : nat) (e : emitted) : Prop :=
  exists k, (N <= k)%nat /\ snd (fst e) = Py.spaces (k * IND_AMT).

(** After the first line: [prev_char] is bound and [code] has a last line. *)
Definition drag_inv (st : list printed * option ascii) : Prop :=
  fst st <> [] /\ snd st <> None.

(** A code line whose first character is [#]. *)
Definition is_macro_line (e : Z * string) : bool :=
  match snd e with String x _ => Py.ceq x "#" | EmptyString => false end.

(** The lines of the rolled-up block comment of a line. *)
Definition rolled_up (r : merged) : list string :=
  match block_comment r with Some l => l | None => [] end.

(** No node has the text [do]. *)
Fixpoint no_do (n : Node) : bool :=
  match n with
  | node _ t ch => negb (String.eqb t "do") && forallb no_do ch
  end.

(** The code lines that carry emitted lines: white space and code in one
    text, under the line number. *)
Definition emitted_code_lines (l : list emitted) : code_lines :=
  flat_map (fun e => match fst (fst e) with
                     | Some n => [(n, snd (fst e) +:+ snd e)]
                     | None => []
                     end) l.

(** A text that [nest_indented] reads back as it is: not empty, no white
    space in front, no line feed, no backslash at the end. *)
Definition plain_text (t : string) : bool :=
  match Py.chars t with
  | [] => false
  | x :: _ => negb (Py.isspace x)
  end && forallb Re.dot (Py.chars t) && negb (Py.ends_with t Py.BACKSLASH).

(** Every node has a line number and a plain text. *)
Fixpoint plain_node (n : Node) : bool :=
  match n with
  | node l t ch =>
      match l with Some _ => true | None => false end
      && plain_text t && forallb plain_node ch
  end.

(** The lines of the tree under [n], at depth [N], are read back as [n]
    appended at depth [N]. *)
Definition reads_back (n : Node) : Prop :=
  plain_node n = true ->
  forall N data nIp d,
    append_at N n data = OK d ->
    exists nIp',
      foldlM Indented.step (Indented.mkState false data nIp)
        (emitted_code_lines (indent_node N n))
      = OK (Indented.mkState false d nIp').

(** The keys of comments in [merge_comments]. *)
Definition comment_keys {V : Type} (ch : moves) (l : list (Z * V)) : list Z :=
  map (fun e => comment_key ch (fst e)) l.

(** * Properties *)

(** ** Direction detection *)

Lemma ends_with_exclusive t x y :
  x <> y -> Py.ends_with t x = true -> Py.ends_with t y = false.
Proof.
  unfold Py.ends_with, Py.ceq. destruct (rev (Py.chars t)) as [|d r]; [done|].
  intros Hxy Hx. apply Ascii.eqb_eq in Hx. subst d.
  apply Ascii.eqb_neq. exact Hxy.
Qed.

Lemma isCurly_step_counts k e :
  count_semicolons (isCurly_step k e)
    = (count_semicolons k + (if ends_in ";" e then 1 else 0))%nat
  /\ count_colons (isCurly_step k e)
    = (count_colons k + (if ends_in ":" e then 1 else 0))%nat.
Proof.
  unfold isCurly_step, ends_in. destruct (Py.nonempty (snd e)); simpl.
  - destruct (Py.ends_with (snd e) ";") eqn:Hs.
    + rewrite (ends_with_exclusive _ ";"%char ":"%char) by (done || congruence).
      simpl. lia.
    + destruct (Py.ends_with (snd e) ":"); simpl; lia.
  - lia.
Qed.

Lemma isCurly_fold_counts code : forall k,
  count_semicolons (fold_left isCurly_step code k)
    = (count_semicolons k + count_ending ";" code)%nat
  /\ count_colons (fold_left isCurly_step code k)
    = (count_colons k + count_ending ":" code)%nat.
Proof.
  induction code as [|e code IH]; intros k; simpl.
  - unfold count_ending; simpl. lia.
  - destruct (IH (isCurly_step k e)) as [-> ->].
    destruct (isCurly_step_counts k e) as [-> ->].
    unfold count_ending; simpl.
    destruct (ends_in ";" e), (ends_in ":" e); simpl; lia.
Qed.

Lemma isCurly_examined (code : code_lines) :
  take (isCurly_max_lines code) code = take (Z.to_nat 50000) code.
Proof.
  unfold isCurly_max_lines.
  destruct (Z.le_gt_cases 50000 (Z.of_nat (length code))) as [H|H].
  - rewrite Z.min_l by lia. reflexivity.
  - rewrite Z.min_r by lia. rewrite Nat2Z.id.
    rewrite !take_ge by lia. reflexivity.
Qed.

(** C5. [isCurly] looks only at the first 50000 code lines, and answers
    "curly" exactly when, among those, the lines with non-empty text ending in
    a semicolon strictly outnumber the lines with non-empty text ending in a
    colon; ties and the empty input are "indented". *)
Theorem isCurly_counts (code : code_lines) :
  let examined := take (Z.to_nat 50000) code in
  (length examined <= Z.to_nat 50000)%nat
  /\ isCurly code = isCurly examined
  /\ (isCurly code = true
      <-> (count_ending ":" examined < count_ending ";" examined)%nat)
  /\ (isCurly code = false
      <-> (count_ending ";" examined <= count_ending ":" examined)%nat)
  /\ isCurly [] = false.
Proof.
  intros examined.
  assert (Hcode : isCurly code
    = (count_ending ":" examined <? count_ending ";" examined)%nat).
  { unfold isCurly. rewrite isCurly_examined. fold examined.
    destruct (isCurly_fold_counts examined (mkCounts 0 0 0)) as [-> ->].
    reflexivity. }
  assert (Hex : isCurly examined = isCurly code).
  { unfold isCurly at 1. rewrite isCurly_examined.
    subst examined. rewrite take_take, Nat.min_id.
    unfold isCurly. rewrite isCurly_examined. reflexivity. }
  split; [subst examined; rewrite length_take; lia|].
  split; [congruence|].
  rewrite Hcode. split; [apply Nat.ltb_lt|].
  split; [apply Nat.ltb_ge|reflexivity].
Qed.

(** ** Semicolon insertion *)

(** C6, as stated, fails: a leaf whose text already ends in a semicolon gets
    a second one. *)
Lemma add_semicolon_doubles :
  add_semicolon [node (Some 0) "x;" []] = [node (Some 0) "x;;" []]
  /\ Py.ends_with "x;" ";" = true
  /\ add_semicolon [node (Some 0) "x;" []] <> [node (Some 0) "x;" []].
Proof. split; [|split]; [vm_compute; reflexivity | reflexivity | discriminate]. Qed.

(** C6, amended. [add_semicolon] appends a semicolon to every leaf whose text
    is not empty and is not a macro line, whatever the last character of the
    text is; it leaves a leaf with empty text or a macro text as it is; it
    leaves a node with children whose text is an enum header, and everything
    below it, as it is; and under any other node with children it keeps the
    text and works on the children. It works on each node of a list
    separately. *)
Theorem add_semicolon_cases :
  (forall l t,
      add_semicolon [node l t []]
      = [node l (if Py.nonempty t && negb (Re.matches re_macro t)
                 then t +:+ ";" else t) []])
  /\ (forall l t c ch,
      add_semicolon [node l t (c :: ch)]
      = [node l t (if Re.matches re_enum t then c :: ch
                   else add_semicolon (c :: ch))])
  /\ (forall code1 code2,
      add_semicolon (code1 ++ code2) = add_semicolon code1 ++ add_semicolon code2)
  /\ (forall l t, Py.ends_with t ";" = true -> Re.matches re_macro t = false ->
      add_semicolon [node l t []] = [node l (t +:+ ";") []]).
Proof.
  assert (Hleaf : forall l t,
      add_semicolon [node l t []]
      = [node l (if Py.nonempty t && negb (Re.matches re_macro t)
                 then t +:+ ";" else t) []]).
  { intros l t. unfold add_semicolon. simpl.
    destruct (Py.nonempty t); simpl; [|reflexivity].
    destruct (Re.matches re_macro t); reflexivity. }
  split; [exact Hleaf|]. split; [|split].
  - intros l t c ch. unfold add_semicolon. simpl.
    destruct (Re.matches re_enum t); reflexivity.
  - intros code1 code2. unfold add_semicolon. apply map_app.
  - intros l t Hsemi Hmacro. rewrite Hleaf, Hmacro.
    assert (Py.nonempty t = true) as ->; [|reflexivity].
    destruct t; [discriminate Hsemi | reflexivity].
Qed.

Lemma add_semicolon_cases_witness :
  Py.ends_with "x;" ";" = true /\ Re.matches re_macro "x;" = false
  /\ add_semicolon [node (Some 0) "x;" []] = [node (Some 0) ("x;" +:+ ";") []].
Proof.
  split; [reflexivity|]. split; [vm_compute; reflexivity|].
  apply (proj2 (proj2 (proj2 add_semicolon_cases)) (Some 0) "x;");
    vm_compute; reflexivity.
Defined.

(** ** Line numbers of the nodes opened by a brace *)

(** C7, as stated, fails: a brace that is the first non-space character of
    line 4, after leading spaces, opens a node numbered 4, not 3. *)
Lemma indented_brace_keeps_line :
  nest_curly [(3, "if (x)"); (4, "  {"); (5, "y;"); (6, "  }")]
  = OK [node (Some 4) "if (x)" [node (Some 5) "y;" []; node (Some 6) "" []]]
  /\ Py.strip "  {" = "{"
  /\ nest_curly [(3, "if (x)"); (4, "  {"); (5, "y;"); (6, "  }")]
     <> OK [node (Some 3) "if (x)" [node (Some 5) "y;" []; node (Some 6) "" []]].
Proof.
  split; [vm_compute; reflexivity|]. split; [vm_compute; reflexivity|].
  vm_compute. discriminate.
Qed.

(** A brace in the first column is attributed to the line before. *)
Example first_column_brace_takes_previous_line :
  nest_curly [(3, "if (x)"); (4, "{"); (5, "y;"); (6, "}")]
  = OK [node (Some 3) "if (x)" [node (Some 5) "y;" []; node (Some 6) "" []]].
Proof. vm_compute; reflexivity. Qed.

(** The decrement stays for the rest of the line. *)
Example first_column_brace_renumbers_rest_of_line :
  nest_curly [(3, "if (x)"); (4, "{ y; {")]
  = OK [node (Some 3) "if (x)" [node (Some 3) "y;" []; node (Some 3) "" []]].
Proof. vm_compute; reflexivity. Qed.

(** The step of [nest_curly] at an opening brace outside a string. *)
Lemma step_open_brace code nL codeLine nC s :
  Curly.isQuotesOpen s = false ->
  Curly.step code nL codeLine s (nC, "{"%char)
  = let s1 := Curly.attribute_to_previous nC (Curly.with_chars (Some "{"%char) (Curly.c s) s) in
    s2 ← Curly._update_data (Curly.num_line s1) s1;
    OK (Curly.with_nI (Curly.nI s2 + 1) s2).
Proof.
  intros Hq. unfold Curly.step.
  change (Py.ceq "{" Py.BACKSLASH) with false.
  change (Py.ceq "{" Py.DQUOTE) with false.
  change (Py.ceq "{" " ") with false.
  change (Py.ceq "{" "(") with false.
  change (Py.ceq "{" ")") with false.
  change (Py.ceq "{" "{") with true.
  cbn [andb orb negb].
  destruct s; simpl in *; subst. simpl. reflexivity.
Qed.

(** C7, amended. Outside a string, an opening brace in the first column of a
    code line whose number [n] is not 0 flushes the buffer as a node numbered
    [n - 1], and the rest of the line is read with the line number [n - 1];
    on line 0 the number stays 0. An opening brace in any other column, also
    when only spaces come before it, flushes the buffer as a node with the
    line number in force at that point, and leaves that number as it is. *)
Theorem brace_line_number :
  (forall code nL n rest s,
      Curly.isQuotesOpen s = false ->
      Curly.line code s (nL, (n, String "{" rest))
      = let line := if n =? 0 then 0 else n - 1 in
        d ← append_at (Z.to_nat (Curly.nI s))
              (node (Some line) (Py.strip (Curly.code_buf s)) []) (Curly.data s);
        foldlM (Curly.step code nL (String "{" rest))
          (Curly.mkState (Some "{"%char) (Curly.c s) (Curly.nI s + 1) "" d
             (Curly.isParenOpen s) false line)
          (enumerate_from 1 (Py.chars rest)))
  /\ (forall code nL codeLine nC s,
      Curly.isQuotesOpen s = false -> nC <> O ->
      Curly.step code nL codeLine s (nC, "{"%char)
      = d ← append_at (Z.to_nat (Curly.nI s))
              (node (Some (Curly.num_line s)) (Py.strip (Curly.code_buf s)) [])
              (Curly.data s);
        OK (Curly.mkState (Some "{"%char) (Curly.c s) (Curly.nI s + 1) "" d
              (Curly.isParenOpen s) false (Curly.num_line s))).
Proof.
  split.
  - intros code nL n rest s Hq.
    unfold Curly.line.
    change (Py.ceq "{" "#") with false. cbv iota.
    change (Py.chars (String "{" rest)) with ("{"%char :: Py.chars rest).
    cbn [enumerate_from foldlM].
    rewrite step_open_brace by (destruct s; exact Hq).
    destruct s as [c cm1 nI buf data par quo num]. simpl in Hq. subst quo.
    unfold Curly.attribute_to_previous, Curly._update_data.
    cbn [Curly.with_chars Curly.with_num_line Curly.num_line Curly.nI
         Curly.code_buf Curly.data Curly.c Curly.isParenOpen Nat.eqb andb].
    destruct (n =? 0) eqn:Hn.
    + apply Z.eqb_eq in Hn. subst n. cbn [negb].
      cbn [Curly.with_chars Curly.with_num_line Curly.num_line Curly.nI
         Curly.code_buf Curly.data Curly.c Curly.isParenOpen].
      destruct (append_at (Z.to_nat nI) (node (Some 0) (Py.strip buf) []) data);
        reflexivity.
    + cbn [negb Curly.with_chars Curly.with_num_line Curly.num_line Curly.nI
         Curly.code_buf Curly.data Curly.c Curly.isParenOpen].
      destruct (append_at (Z.to_nat nI) (node (Some (n - 1)) (Py.strip buf) []) data);
        reflexivity.
  - intros code nL codeLine nC s Hq HnC.
    rewrite step_open_brace by exact Hq.
    destruct s as [c cm1 nI buf data par quo num]. simpl in Hq. subst quo.
    unfold Curly.attribute_to_previous, Curly._update_data.
    destruct nC as [|nC]; [congruence|].
    cbn [Curly.with_chars Curly.with_num_line Curly.num_line Curly.nI
         Curly.code_buf Curly.data Curly.c Curly.isParenOpen Nat.eqb andb].
    destruct (append_at (Z.to_nat nI) (node (Some num) (Py.strip buf) []) data);
      reflexivity.
Qed.

Lemma brace_line_number_witness :
  Curly.isQuotesOpen Curly.state0 = false /\ 2%nat <> O
  /\ Curly.line [(4, "{")] Curly.state0 (O, (4, "{"))
     = OK (Curly.mkState (Some "{"%char) None 1 "" [node (Some 3) "" []] false false 3)
  /\ Curly.step [(4, "  {")] 0 "  {" (Curly.with_num_line 4 Curly.state0)
       (2%nat, "{"%char)
     = OK (Curly.mkState (Some "{"%char) None 1 "" [node (Some 4) "" []] false false 4).
Proof.
  split; [reflexivity|]. split; [discriminate|]. split.
  - exact (proj1 brace_line_number [(4, "{")] O 4 "" Curly.state0 eq_refl).
  - exact (proj2 brace_line_number [(4, "  {")] O "  {" 2%nat
             (Curly.with_num_line 4 Curly.state0) eq_refl ltac:(discriminate)).
Defined.

(** ** Inputs without code *)







(** ** Totality *)

(** C1. [convert] raises on the one-word text [x] in the automatic direction:
    the text is taken for indentation syntax, the only output line is [x;],
    it matches [alias], and [cosmetic_lines] reads [prev_char] before any
    assignment. It also raises when the first line of an indented text is
    indented, where [nest_indented] takes the last element of an empty
    list. *)
Theorem convert_raises :
  convert "x" None = Raise UnboundLocalError
  /\ cosmetic_lines [Line "" "x;" "" ""] = Raise UnboundLocalError
  /\ convert "    x" None = Raise IndexError
  /\ nest_indented [(0, "    x")] = Raise IndexError.
Proof. repeat split; vm_compute; reflexivity. Qed.

(** ** Comments *)

(** C2. Two line comments, on the line of a struct and on the line of its
    alias, are keyed by the same line once the alias line is joined: the
    second replaces the first in [com_d], and the output has one comment
    where the input has two. *)
Theorem comment_lost_on_joined_line :
  let s := text_of [""; "struct S { int x; } // a"; "T; // b"] in
  let o := text_of ["struct S, T: // b"; "    int x"; ""] in
  convert s None = OK o
  /\ comment_texts s = OK ["// a"; "// b"]
  /\ comment_texts o = OK ["// b"].
Proof. repeat split; vm_compute; reflexivity. Qed.

(** ** Macro lines *)

(** C3. A macro line that ends in a semicolon loses it on the way to
    indentation syntax: [rem_semicolon] strips the leaf without looking for
    the [#] that [add_semicolon] and [rem_colon] look for. *)
Theorem macro_line_loses_semicolon :
  convert "#define E x;" None = OK (text_of ["#define E x"; ""])
  /\ convert "#define E x;" (Some true) = OK (text_of ["#define E x"; ""])
  /\ rem_semicolon [node (Some 0) "#define E x;" []]
     = [node (Some 0) "#define E x" []]
  /\ add_semicolon [node (Some 0) "#define E x" []]
     = [node (Some 0) "#define E x" []]
  /\ rem_colon [node (Some 0) "#define E:" []]
     = [node (Some 0) "#define E:" []].
Proof. repeat split; vm_compute; reflexivity. Qed.

(** ** Converting twice *)




(** ** Scenarios *)

(** C8. The one-line class with two access modifiers, converted to
    indentation syntax: the members are nested under their modifier and the
    semicolon of the class is gone. *)
Theorem access_modifier_scenario :
  let s := "class A { public: int x; private: int y; };" in
  let expected := ["class A:"; "    public:"; "        int x";
                   "    private:"; "        int y"] in
  convert s (Some true) = OK (text_of (expected ++ [""]))
  /\ convert s None = OK (text_of (expected ++ [""]))
  /\ nonblank_lines (text_of (expected ++ [""])) = expected.
Proof. repeat split; vm_compute; reflexivity. Qed.

(** ** Aliases behind the closing brace *)

Lemma foldlM_app {A B : Type} (f : B -> A -> result B) (l1 l2 : list A) : forall b,
  foldlM f b (l1 ++ l2) = b' ← foldlM f b l1; foldlM f b' l2.
Proof.
  induction l1 as [|a l1 IH]; intros b; simpl; [reflexivity|].
  destruct (f b a) as [b'|e]; simpl; [apply IH | reflexivity].
Qed.

Lemma foldlM_cons {A B : Type} (f : B -> A -> result B) (a : A) (l : list A) b :
  foldlM f b (a :: l) = b' ← f b a; foldlM f b' l.
Proof. reflexivity. Qed.

Lemma bind_OK {A B : Type} (a : A) (f : A -> result B) : (OK a ≫= f) = f a.
Proof. reflexivity. Qed.

Lemma drag_step_prev_char st r st' :
  drag_step st r = OK st' -> snd st' = Some (last_or_space (code_text r)).
Proof.
  destruct st as [code prev]. unfold drag_step.
  destruct (Re.matches alias (code_text r)).
  - destruct prev as [p|]; [|discriminate].
    destruct (Py.ceq p "}").
    + destruct (alter_last _ code); simpl; [|discriminate].
      intros [= <-]. reflexivity.
    + simpl. intros [= <-]. reflexivity.
  - simpl. intros [= <-]. reflexivity.
Qed.

Lemma ends_with_last_or_space t x :
  Py.ends_with t x = true -> last_or_space t = x.
Proof.
  unfold Py.ends_with, last_or_space.
  destruct (rev (Py.chars t)) as [|d r]; [discriminate|].
  intros H. apply Ascii.eqb_eq in H. exact H.
Qed.

Lemma alter_last_snoc {A : Type} (f : A -> result A) (l : list A) (x y : A) :
  f x = OK y -> alter_last f (l ++ [x]) = OK (l ++ [y]).
Proof.
  intros H. unfold alter_last. rewrite rev_app_distr. simpl.
  rewrite H. simpl. rewrite rev_involutive. reflexivity.
Qed.

Lemma alias_one_char t :
  Re.matches alias t = true -> (1 <? Py.len t)%nat = false -> t = ";".
Proof.
  destruct t as [|a [|b t]]; intros H Hlen.
  - vm_compute in H. discriminate.
  - destruct a as [[] [] [] [] [] [] [] []]; vm_compute in H;
      try discriminate; reflexivity.
  - simpl in Hlen. discriminate.
Qed.

(** C10. In the loop of [cosmetic_lines] that drags aliases back, a line [r]
    whose code matches [alias] and that comes right after a line [p] whose
    code ends in a closing brace is not appended: it is added to the last
    output line [q], the one that holds [p] ([p] itself unless [p] was an
    alias line dragged back too). The code of [r] goes behind the code of [q]
    after one space, or after none when it is a lone semicolon; the block
    comment and the line comment of [r] go behind those of [q]; and the loop
    goes on from there. *)
Theorem alias_dragged_behind_brace pre p r out q :
  drag_aliases (pre ++ [p]) = OK (out ++ [q]) ->
  Py.ends_with (code_text p) "}" = true ->
  Re.matches alias (code_text r) = true ->
  drag_aliases (pre ++ [p; r]) = OK (out ++ [drag q r])
  /\ code_text (drag q r)
     = code_text q +:+ (if String.eqb (code_text r) ";" then "" else " ")
       +:+ code_text r
  /\ block_comment (drag q r) = block_comment q +:+ block_comment r
  /\ line_comment (drag q r) = line_comment q +:+ line_comment r
  /\ white_space (drag q r) = white_space q
  /\ (Re.matches alias (code_text p) = false -> q = p)
  /\ forall post,
       drag_aliases (pre ++ [p; r] ++ post)
       = st ← foldlM drag_step
                (out ++ [drag q r], Some (last_or_space (code_text r))) post;
         OK (fst st).
Proof.
  intros Hpre Hbrace Halias.
  unfold drag_aliases in Hpre.
  destruct (foldlM drag_step ([], None) (pre ++ [p])) as [[code prev]|e] eqn:Hfold;
    [|discriminate].
  simpl in Hpre. injection Hpre as ->.
  pose proof Hfold as Hfold'.
  rewrite foldlM_app in Hfold'.
  destruct (foldlM drag_step ([], None) pre) as [st0|e] eqn:Hpre0; [|discriminate].
  simpl in Hfold'.
  destruct (drag_step st0 p) as [st1|e] eqn:Hp; [|discriminate].
  injection Hfold' as ->.
  pose proof (drag_step_prev_char _ _ _ Hp) as Hprev. simpl in Hprev. subst prev.
  rewrite (ends_with_last_or_space _ _ Hbrace) in Hfold.
  assert (Hr : drag_step (out ++ [q], Some "}"%char) r
               = OK (out ++ [drag q r], Some (last_or_space (code_text r)))).
  { unfold drag_step. rewrite Halias.
    change (Py.ceq "}" "}") with true. cbv iota.
    rewrite (alter_last_snoc _ out q (drag q r)) by reflexivity. reflexivity. }
  assert (Hall : forall post,
    foldlM drag_step ([], None) (pre ++ [p; r] ++ post)
    = foldlM drag_step (out ++ [drag q r], Some (last_or_space (code_text r))) post).
  { intros post.
    replace (pre ++ [p; r] ++ post) with ((pre ++ [p]) ++ r :: post)
      by (rewrite <- app_assoc; reflexivity).
    rewrite foldlM_app, Hfold, bind_OK, foldlM_cons, Hr, bind_OK. reflexivity. }
  split.
  { unfold drag_aliases. specialize (Hall []). rewrite app_nil_r in Hall.
    rewrite Hall. reflexivity. }
  split.
  { unfold drag. simpl. destruct (1 <? Py.len (code_text r))%nat eqn:Hlen.
    - destruct (String.eqb (code_text r) ";") eqn:Heq; [|reflexivity].
      apply String.eqb_eq in Heq. rewrite Heq in Hlen. discriminate.
    - rewrite (alias_one_char _ Halias Hlen). reflexivity. }
  split; [reflexivity|]. split; [reflexivity|]. split; [reflexivity|].
  split.
  { intros Hnot. destruct st0 as [code0 prev0].
    unfold drag_step in Hp. rewrite Hnot in Hp. simpl in Hp.
    injection Hp as Hp. apply app_inj_tail in Hp as [_ Hp]. congruence. }
  intros post. unfold drag_aliases. rewrite Hall. reflexivity.
Qed.

Lemma alias_dragged_behind_brace_witness :
  let p := Line "" "}" "" "" in
  let r := Line "" "T, U;" "" "// c" in
  drag_aliases ([] ++ [p]) = OK ([] ++ [p])
  /\ Py.ends_with (code_text p) "}" = true
  /\ Re.matches alias (code_text r) = true
  /\ drag_aliases ([] ++ [p; r]) = OK ([] ++ [drag p r]).
Proof.
  intros p r.
  assert (H1 : drag_aliases ([] ++ [p]) = OK ([] ++ [p])) by (vm_compute; reflexivity).
  assert (H2 : Py.ends_with (code_text p) "}" = true) by reflexivity.
  assert (H3 : Re.matches alias (code_text r) = true) by (vm_compute; reflexivity).
  split; [exact H1|]. split; [exact H2|]. split; [exact H3|].
  exact (proj1 (alias_dragged_behind_brace [] p r [] p H1 H2 H3)).
Defined.

(** The inverse of the typedef scenario: the alias list is rendered on the
    line of the closing brace. *)
Example alias_line_in_curly_output :
  convert (text_of ["typedef struct S, T, U:"; "    int a"]) None
  = OK (text_of ["typedef struct S {"; "    int a;"; "} T, U;"; ""]).
Proof. vm_compute; reflexivity. Qed.

(** * Further properties *)

Lemma alter_last_app {A : Type} (f : A -> result A) (l : list A) (x : A) :
  alter_last f (l ++ [x]) = y ← f x; OK (l ++ [y]).
Proof.
  unfold alter_last. rewrite rev_app_distr. simpl.
  destruct (f x); simpl; [rewrite rev_involutive|]; reflexivity.
Qed.

Lemma last_Some_snoc {A : Type} (l : list A) (x : A) :
  last l = Some x -> exists l', l = l' ++ [x].
Proof.
  destruct l as [|a l] using rev_ind; [discriminate|].
  rewrite last_snoc. intros [= ->]. eauto.
Qed.

Lemma deep_le d : forall data, deep (S d) data -> deep d data.
Proof.
  induction d as [|d IH]; intros data H; [exact I|].
  simpl in *. destruct (last data) as [n|]; [|contradiction].
  apply IH. exact H.
Qed.

Lemma append_at_deep d x : forall data,
  deep d data -> exists data', append_at d x data = OK data' /\ deep (S d) data'.
Proof.
  induction d as [|d IH]; intros data H.
  - exists (data ++ [x]). split; [reflexivity|].
    simpl. rewrite last_snoc. exact I.
  - simpl in H. destruct (last data) as [n|] eqn:Hl; [|contradiction].
    apply last_Some_snoc in Hl as [l' ->].
    destruct (IH _ H) as (ch & Hch & Hd).
    exists (l' ++ [node (node_line n) (node_text n) ch]). split.
    + cbn [append_at]. rewrite alter_last_app, Hch. reflexivity.
    + change (deep (S (S d)) ?l) with
        (match last l with Some n => deep (S d) (node_children n) | None => False end).
      rewrite last_snoc. exact Hd.
Qed.

Lemma update_data_ok line s :
  curly_inv s ->
  exists s', Curly._update_data line s = OK s'
    /\ Curly.nI s' = Curly.nI s
    /\ Curly.num_line s' = Curly.num_line s
    /\ deep (S (Z.to_nat (Curly.nI s))) (Curly.data s').
Proof.
  intros H. unfold Curly._update_data.
  destruct (append_at_deep _ (node (Some line) (Py.strip (Curly.code_buf s)) []) _ H)
    as (d & -> & Hd).
  eexists. split; [reflexivity|]. destruct s; simpl. auto.
Qed.

Lemma inv_after_flush s s' (k : Z) :
  Curly.nI s' = Curly.nI s ->
  deep (S (Z.to_nat (Curly.nI s))) (Curly.data s') ->
  (k <= Curly.nI s + 1) ->
  curly_inv (Curly.with_nI k s').
Proof.
  intros HnI Hd Hk. unfold curly_inv. destruct s' as [c' cm1' nI' buf' data' par' quo' num'].
  cbn [Curly.nI Curly.data Curly.with_nI] in *. subst nI'.
  destruct (Z.le_gt_cases k (Curly.nI s)) as [Hle|Hgt].
  - destruct (Z.le_gt_cases k 0) as [H0|H0].
    + replace (Z.to_nat k) with O by lia. exact I.
    + assert (Hm : forall a b dd, (a <= b)%nat -> deep b dd -> deep a dd).
      { intros a b dd Hab. induction Hab; [auto|]. intros Hb. apply IHHab, deep_le, Hb. }
      apply (Hm _ (S (Z.to_nat (Curly.nI s)))); [lia | exact Hd].
  - assert (k = Curly.nI s + 1) as -> by lia.
    destruct (Z.le_gt_cases (Curly.nI s + 1) 0) as [H0|H0].
    + replace (Z.to_nat (Curly.nI s + 1)) with O by lia. exact I.
    + replace (Z.to_nat (Curly.nI s + 1)) with (S (Z.to_nat (Curly.nI s))) by lia.
      exact Hd.
Qed.

Lemma inv_flush_same s s' :
  Curly.nI s' = Curly.nI s ->
  deep (S (Z.to_nat (Curly.nI s))) (Curly.data s') ->
  curly_inv s'.
Proof.
  intros HnI Hd. unfold curly_inv. rewrite HnI. apply deep_le, Hd.
Qed.

Lemma append_char_ok code nL codeLine nC x s :
  curly_inv s ->
  exists s', Curly.append_char code nL codeLine nC x s = OK s' /\ curly_inv s'.
Proof.
  intros H. unfold Curly.append_char.
  set (s1 := Curly.with_code_buf _ s).
  assert (H1 : curly_inv s1) by (destruct s; exact H).
  match goal with |- context [if ?b then _ else _] => destruct b end.
  - set (s2 := Curly.attribute_to_previous nC s1).
    assert (H2 : curly_inv s2).
    { unfold s2, Curly.attribute_to_previous.
      destruct (_ && _); [destruct s1|]; exact H1. }
    destruct (update_data_ok (Curly.num_line s2) s2 H2) as (s' & -> & HnI & _ & Hd).
    exists s'. split; [reflexivity|]. eapply inv_flush_same; eassumption.
  - eauto.
Qed.

Lemma step_ok code nL codeLine s e :
  curly_inv s ->
  exists s', Curly.step code nL codeLine s e = OK s' /\ curly_inv s'.
Proof.
  intros H. destruct e as [nC x]. unfold Curly.step.
  destruct (_ && _); [eauto|].
  set (s1 := Curly.with_chars _ _ s).
  assert (H1 : curly_inv s1) by (destruct s; exact H).
  match goal with |- context [if ?b then ?a else s1] => set (s2 := if b then a else s1) end.
  assert (H2 : curly_inv s2).
  { unfold s2. destruct (_ && _); [destruct s1|]; exact H1. }
  clearbody s2. clear s1 H1 H.
  destruct (negb (Curly.isQuotesOpen s2)); [|apply append_char_ok, H2].
  destruct (_ && _); [eauto|].
  destruct (Py.ceq x "(").
  { apply append_char_ok. destruct s2; exact H2. }
  destruct (Py.ceq x ")").
  { apply append_char_ok. destruct s2; exact H2. }
  destruct (_ || _); [|apply append_char_ok, H2].
  set (s3 := if Py.ceq x "{" then _ else s2).
  assert (H3 : curly_inv s3).
  { unfold s3. destruct (Py.ceq x "{"); [|exact H2].
    unfold Curly.attribute_to_previous.
    destruct (_ && _); [destruct s2|]; exact H2. }
  destruct (update_data_ok (Curly.num_line s3) s3 H3) as (s' & -> & HnI & _ & Hd).
  cbn [mbind result_bind].
  eexists. split; [reflexivity|].
  destruct (Py.ceq x "{"); (eapply inv_after_flush; [exact HnI | exact Hd | lia]).
Qed.

Lemma foldlM_invariant {A B : Type} (f : B -> A -> result B) (Inv : B -> Prop) :
  (forall b a, Inv b -> exists b', f b a = OK b' /\ Inv b') ->
  forall l b, Inv b -> exists b', foldlM f b l = OK b' /\ Inv b'.
Proof.
  intros Hf l. induction l as [|a l IH]; intros b Hb; simpl; [eauto|].
  destruct (Hf b a Hb) as (b' & -> & Hb'). simpl. apply IH, Hb'.
Qed.

Lemma line_ok code s e :
  curly_inv s -> exists s', Curly.line code s e = OK s' /\ curly_inv s'.
Proof.
  intros H. destruct e as [nL [n codeLine]]. unfold Curly.line.
  set (s1 := Curly.with_num_line n s).
  assert (H1 : curly_inv s1) by (destruct s; exact H).
  clearbody s1. destruct codeLine as [|x rest]; [eauto|].
  destruct (Py.ceq x "#").
  - assert (exists s2, (if Py.nonempty (Py.strip (Curly.code_buf s1))
                        then Curly._update_data (Curly.num_line s1 - 1) s1 else OK s1)
                       = OK s2 /\ curly_inv s2) as (s2 & -> & H2).
    { destruct (Py.nonempty _); [|eauto].
      destruct (update_data_ok (Curly.num_line s1 - 1) s1 H1) as (s' & -> & HnI & _ & Hd).
      exists s'. split; [reflexivity|]. eapply inv_flush_same; eassumption. }
    cbn [mbind result_bind].
    set (s3 := Curly.with_code_buf _ s2).
    assert (H3 : curly_inv s3) by (destruct s2; exact H2).
    destruct (update_data_ok (Curly.num_line s3) s3 H3) as (s' & -> & HnI & _ & Hd).
    exists s'. split; [reflexivity|]. eapply inv_flush_same; eassumption.
  - apply foldlM_invariant; [|exact H1]. intros b a. apply step_ok.
Qed.

(** X1. [nest_curly] never raises, whatever the braces: the descent of
    [_update_data] always finds the lists it steps into. *)
Theorem nest_curly_never_raises (code : code_lines) :
  exists data, nest_curly code = OK data.
Proof.
  unfold nest_curly.
  destruct (foldlM_invariant (Curly.line code) curly_inv
              (fun b a => line_ok code b a) (enumerate_from 0 code) Curly.state0 I)
    as (s & -> & _).
  eexists. reflexivity.
Qed.

Lemma alter_last_ok {A : Type} (f : A -> result A) (l : list A) :
  l <> [] -> (forall x, exists y, f x = OK y) ->
  exists l' x y, l = l' ++ [x] /\ f x = OK y /\ alter_last f l = OK (l' ++ [y]).
Proof.
  intros Hl Hf. destruct l as [|a l] using rev_ind; [congruence|].
  destruct (Hf a) as [y Hy]. exists l, a, y. rewrite alter_last_app, Hy. auto.
Qed.

Lemma alter_last_text_ok {K : Type} (f : string -> string) (l : list (K * string)) :
  l <> [] -> exists l', Lexer.alter_last_text f l = OK l' /\ l' <> [].
Proof.
  intros Hl. unfold Lexer.alter_last_text.
  destruct (alter_last_ok (fun e => OK (fst e, f (snd e))) l Hl) as (l' & x & y & _ & _ & ->).
  { eauto. }
  eexists. split; [reflexivity|]. destruct l'; discriminate.
Qed.

Lemma alter_last_bcom_line_ok (f : string -> string) (l : block_comments) :
  l <> [] -> Forall (fun e => snd e <> []) l ->
  exists l', Lexer.alter_last_bcom_line f l = OK l' /\ l' <> []
             /\ Forall (fun e => snd e <> []) l'.
Proof.
  intros Hl Hall. unfold Lexer.alter_last_bcom_line.
  destruct l as [|[n ls] l] using rev_ind; [congruence|]. clear IHl.
  apply Forall_app in Hall as [Hall Hlast].
  apply Forall_inv in Hlast. simpl in Hlast.
  rewrite alter_last_app. simpl.
  destruct (alter_last_ok (fun t => OK (f t)) ls Hlast) as (ls' & x & y & _ & _ & ->).
  { eauto. }
  simpl. eexists. split; [reflexivity|]. split; [destruct l; discriminate|].
  apply Forall_app. split; [exact Hall|]. constructor; [|constructor].
  simpl. destruct ls'; discriminate.
Qed.

Lemma lex_char_ok nL s c :
  lexer_inv_line s -> exists s', Lexer.lex_char nL s c = OK s' /\ lexer_inv_line s'.
Proof.
  intros [[Hb Hall] [Hcode Hcom]]. unfold Lexer.lex_char.
  (* the character goes to one of the three streams *)
  match goal with |- context [?m ≫= _] =>
    assert (exists s1, m = OK s1 /\ lexer_inv_line s1
              /\ Lexer.isComment s1 = Lexer.isComment s
              /\ Lexer.isBlockComment s1 = Lexer.isBlockComment s
              /\ Lexer.isQuotesOpen s1 = Lexer.isQuotesOpen s
              /\ Lexer.cm1 s1 = Lexer.cm1 s) as (s1 & -> & H1 & E1 & E2 & E3 & E4)
  end.
  { destruct (Lexer.isComment s) eqn:Ec.
    - destruct (alter_last_text_ok (Py.add_char c) (Lexer.coms s) (Hcom eq_refl))
        as (v & -> & Hv).
      eexists. split; [reflexivity|]. destruct s; unfold lexer_inv_line, lexer_inv in *; cbn in *;
      repeat split; auto; try (intros; congruence).
    - destruct (Lexer.isBlockComment s) eqn:Eb.
      + destruct (alter_last_bcom_line_ok (Py.add_char c) (Lexer.bcoms s) (Hb eq_refl) Hall)
          as (v & -> & Hv & Hall').
        eexists. split; [reflexivity|]. destruct s; unfold lexer_inv_line, lexer_inv in *; cbn in *;
        repeat split; auto; try (intros; congruence).
      + destruct (alter_last_text_ok (Py.add_char c) (Lexer.out_code s) Hcode)
          as (v & -> & Hv).
        eexists. split; [reflexivity|]. destruct s; unfold lexer_inv_line, lexer_inv in *; cbn in *;
        repeat split; auto; congruence. }
  clear Hb Hall Hcode Hcom. cbn [mbind result_bind].
  rewrite E4. clear E1 E2 E3 E4.
  (* the quotes *)
  match goal with |- context [if ?b then ?a else s1] => set (s2 := if b then a else s1) end.
  assert (H2 : lexer_inv_line s2
               /\ Lexer.cm1 s2 = Lexer.cm1 s1).
  { unfold s2. destruct (_ && _); [|auto]. destruct s1; exact (conj H1 eq_refl). }
  destruct H2 as [H2 E2]. clearbody s2. clear H1.
  (* the start of a line comment *)
  match goal with |- context [?m ≫= _] =>
    assert (exists s3, m = OK s3 /\ lexer_inv_line s3) as (s3 & -> & H3)
  end.
  { destruct (_ && _); [|eauto]. destruct H2 as [[Hb Hall] [Hcode Hcom]].
    destruct (alter_last_text_ok (Py.drop_last 2) (Lexer.out_code s2) Hcode)
      as (v & -> & Hv).
    eexists. split; [reflexivity|]. destruct s2; unfold lexer_inv_line, lexer_inv in *; cbn in *;
    repeat split; auto; try (intros; congruence). intros _. destruct coms; discriminate. }
  cbn [mbind result_bind]. clear H2.
  (* the start of a block comment *)
  match goal with |- context [?m ≫= _] =>
    assert (exists s4, m = OK s4 /\ lexer_inv_line s4) as (s4 & -> & H4)
  end.
  { destruct (_ && _); [|eauto]. destruct H3 as [[Hb Hall] [Hcode Hcom]].
    destruct (alter_last_text_ok (Py.drop_last 2) (Lexer.out_code s3) Hcode)
      as (v & -> & Hv).
    cbn [mbind result_bind].
    set (s' := Lexer.with_out_code v (Lexer.with_isBlockComment true s3)).
    assert (Eb : Lexer.bcoms s' = Lexer.bcoms s3) by (destruct s3; reflexivity).
    assert (Hnew : forall x, lexer_inv_line
              (Lexer.with_bcoms (Lexer.bcoms s' ++ [(nL, [x])]) s')).
    { intros x. rewrite Eb. destruct s3; unfold lexer_inv_line, lexer_inv in *; cbn in *; repeat split; auto; try (intros; congruence).
      - intros _. destruct bcoms; discriminate.
      - apply Forall_app. split; [exact Hall|]. constructor; [discriminate|constructor]. }
    destruct (last (Lexer.bcoms s')) as [[n ls]|] eqn:El; [|eauto].
    destruct (negb (n =? nL)); [eauto|].
    assert (Hne : Lexer.bcoms s' <> []) by (intros E; rewrite E in El; discriminate).
    rewrite Eb in Hne |- *.
    match goal with |- context [Lexer.alter_last_bcom_line ?f _] =>
      destruct (alter_last_bcom_line_ok f (Lexer.bcoms s3) Hne Hall)
        as (b & -> & Hbn & Hall')
    end.
    eexists. split; [reflexivity|]. destruct s3; unfold lexer_inv_line, lexer_inv in *; cbn in *;
    repeat split; auto; try (intros; congruence). }
  cbn [mbind result_bind]. clear H3.
  eexists. split; [reflexivity|].
  destruct H4 as [[Hb Hall] [Hcode Hcom]].
  destruct (_ && _); destruct s4; simpl in *; repeat split; auto; discriminate.
Qed.

Lemma lex_line_ok s e :
  lexer_inv s -> exists s', Lexer.lex_line s e = OK s' /\ lexer_inv s'.
Proof.
  intros [Hb Hall]. destruct e as [nL line]. unfold Lexer.lex_line.
  destruct (negb _); [exists s; split; [reflexivity|split; assumption]|].
  set (s0 := Lexer.with_isComment false s).
  assert (H0 : lexer_inv s0 /\ Lexer.isComment s0 = false)
    by (destruct s; repeat split; assumption).
  clearbody s0. destruct H0 as [[Hb0 Hall0] Ec0].
  match goal with |- context [?m ≫= _] =>
    assert (exists s1, m = OK s1 /\ lexer_inv s1 /\ Lexer.out_code s1 <> []
                       /\ Lexer.isComment s1 = false) as (s1 & -> & [Hb1 Hall1] & Hc1 & Ec1)
  end.
  { destruct (last (Lexer.out_code s0)) as [[n t]|] eqn:El.
    - destruct (Py.nonempty t).
      + eexists. split; [reflexivity|]. destruct s0; unfold lexer_inv_line, lexer_inv in *; cbn in *;
        repeat split; auto; try (intros; congruence). destruct out_code; discriminate.
      + assert (Hne : Lexer.out_code s0 <> []) by (intros E; rewrite E in El; discriminate).
        destruct (alter_last_ok (fun e => OK (nL, snd e)) (Lexer.out_code s0) Hne)
          as (l' & x & y & _ & _ & ->); [eauto|].
        eexists. split; [reflexivity|]. destruct s0; unfold lexer_inv_line, lexer_inv in *; cbn in *;
        repeat split; auto; try (intros; congruence). destruct l'; discriminate.
    - eexists. split; [reflexivity|]. destruct s0; unfold lexer_inv_line, lexer_inv in *; cbn in *;
      repeat split; auto; try (intros; congruence). destruct out_code; discriminate. }
  cbn [mbind result_bind].
  match goal with |- context [?m ≫= _] =>
    assert (exists s2, m = OK s2 /\ lexer_inv_line s2) as (s2 & -> & H2)
  end.
  { destruct (Lexer.isBlockComment s1) eqn:Eb.
    - specialize (Hb1 eq_refl).
      destruct (Lexer.bcoms s1) as [|[n ls] l] eqn:Ebc using rev_ind; [congruence|].
      clear IHl. rewrite alter_last_app. simpl.
      eexists. split; [reflexivity|]. destruct s1; unfold lexer_inv_line, lexer_inv in *; cbn in *. subst.
      apply Forall_app in Hall1 as [Hall1 _].
      repeat split; auto; try congruence.
      + intros _. destruct l; discriminate.
      + apply Forall_app. split; [exact Hall1|]. constructor; [|constructor].
        simpl. destruct ls; discriminate.
    - eexists. split; [reflexivity|]. repeat split; auto; congruence. }
  cbn [mbind result_bind].
  assert (H3 : lexer_inv_line (Lexer.with_cm1 Py.LF s2)).
  { destruct s2. exact H2. }
  destruct (foldlM_invariant (Lexer.lex_char nL) lexer_inv_line
              (fun b a => lex_char_ok nL b a) (Py.chars line) _ H3) as (s' & -> & [H' _]).
  eauto.
Qed.

(** X2. [parse_raw_code] never raises, and every block comment it returns
    has at least one line. *)
Theorem parse_raw_code_never_raises (lines : list string) :
  exists code bcoms coms,
    parse_raw_code lines = OK (code, bcoms, coms)
    /\ Forall (fun b => snd b <> []) bcoms.
Proof.
  unfold parse_raw_code.
  destruct (foldlM_invariant Lexer.lex_line lexer_inv lex_line_ok
              (enumerate 0 lines) Lexer.lexer0) as (s & -> & [_ Hall]).
  { split; [discriminate|constructor]. }
  do 3 eexists. split; [reflexivity|exact Hall].
Qed.

Lemma alter_last_keys {K V : Type} (f : K * V -> result (K * V)) (l l' : list (K * V)) :
  (forall x y, f x = OK y -> fst y = fst x) ->
  alter_last f l = OK l' -> map fst l' = map fst l.
Proof.
  intros Hf H. destruct l as [|x l] using rev_ind; [discriminate|]. clear IHl.
  rewrite alter_last_app in H. destruct (f x) as [y|e] eqn:E; [|discriminate].
  injection H as <-. rewrite !map_app. cbn [map]. rewrite (Hf _ _ E). reflexivity.
Qed.

Lemma alter_last_text_keys {K : Type} f (l l' : list (K * string)) :
  Lexer.alter_last_text f l = OK l' -> map fst l' = map fst l.
Proof.
  apply alter_last_keys. intros x y [= <-]. reflexivity.
Qed.

Lemma alter_last_bcom_line_keys f (l l' : block_comments) :
  Lexer.alter_last_bcom_line f l = OK l' -> map fst l' = map fst l.
Proof.
  apply alter_last_keys. intros x y H.
  destruct (alter_last _ (snd x)); [|discriminate]. injection H as <-. reflexivity.
Qed.

Lemma last_map {A B : Type} (f : A -> B) (l : list A) :
  last (map f l) = match last l with Some x => Some (f x) | None => None end.
Proof.
  destruct l as [|x l] using rev_ind; [reflexivity|].
  rewrite map_app. cbn [map]. rewrite !last_snoc. reflexivity.
Qed.

(** What one character does to the line numbers of the three streams. *)
Lemma lex_char_keys nL s c s' :
  Lexer.lex_char nL s c = OK s' ->
  map fst (Lexer.out_code s') = map fst (Lexer.out_code s)
  /\ (map fst (Lexer.coms s') = map fst (Lexer.coms s)
      /\ (Lexer.isComment s = true -> Lexer.isComment s' = true)
      \/ map fst (Lexer.coms s') = map fst (Lexer.coms s) ++ [nL]
         /\ Lexer.isComment s = false /\ Lexer.isComment s' = true)
  /\ (map fst (Lexer.bcoms s') = map fst (Lexer.bcoms s)
      \/ map fst (Lexer.bcoms s') = map fst (Lexer.bcoms s) ++ [nL]
         /\ last (map fst (Lexer.bcoms s)) <> Some nL).
Proof.
  unfold Lexer.lex_char. intros H.
  (* the character goes to one of the three streams *)
  match type of H with (?m ≫= _) = _ =>
    destruct m as [s1|e] eqn:E1; [|discriminate] end.
  cbn [mbind result_bind] in H.
  assert (K1 : map fst (Lexer.out_code s1) = map fst (Lexer.out_code s)
               /\ map fst (Lexer.coms s1) = map fst (Lexer.coms s)
               /\ map fst (Lexer.bcoms s1) = map fst (Lexer.bcoms s)
               /\ Lexer.isComment s1 = Lexer.isComment s
               /\ Lexer.cm1 s1 = Lexer.cm1 s).
  { destruct (Lexer.isComment s) eqn:Ei; [|destruct (Lexer.isBlockComment s) eqn:Eb].
    - destruct (Lexer.alter_last_text _ (Lexer.coms s)) as [v|e] eqn:Ev; [|discriminate].
      injection E1 as <-. apply alter_last_text_keys in Ev.
      destruct s; cbn in *. repeat split; auto.
    - destruct (Lexer.alter_last_bcom_line _ (Lexer.bcoms s)) as [v|e] eqn:Ev;
        [|discriminate].
      injection E1 as <-. apply alter_last_bcom_line_keys in Ev.
      destruct s; cbn in *. repeat split; auto.
    - destruct (Lexer.alter_last_text _ (Lexer.out_code s)) as [v|e] eqn:Ev;
        [|discriminate].
      injection E1 as <-. apply alter_last_text_keys in Ev.
      destruct s; cbn in *. repeat split; auto. }
  destruct K1 as (Ko1 & Kc1 & Kb1 & Ec1 & Em1).
  rewrite <- Ko1, <- Kc1, <- Kb1, <- Ec1. clear Ko1 Kc1 Kb1 Ec1 E1. rewrite Em1 in H.
  (* the quotes *)
  match type of H with context [if ?b then ?a else s1] =>
    set (s2 := if b then a else s1) in H end.
  assert (K2 : Lexer.out_code s2 = Lexer.out_code s1
               /\ Lexer.coms s2 = Lexer.coms s1 /\ Lexer.bcoms s2 = Lexer.bcoms s1
               /\ Lexer.isComment s2 = Lexer.isComment s1).
  { unfold s2. destruct (_ && _); [destruct s1|]; repeat split. }
  destruct K2 as (Ko2 & Kc2 & Kb2 & Ec2).
  rewrite <- Ko2, <- Kc2, <- Kb2, <- Ec2. clearbody s2. clear Ko2 Kc2 Kb2 Ec2.
  (* the start of a line comment *)
  match type of H with (?m ≫= _) = _ =>
    destruct m as [s3|e] eqn:E3; [|discriminate] end.
  cbn [mbind result_bind] in H.
  assert (K3 : map fst (Lexer.out_code s3) = map fst (Lexer.out_code s2)
               /\ Lexer.bcoms s3 = Lexer.bcoms s2
               /\ (Lexer.coms s3 = Lexer.coms s2 /\ Lexer.isComment s3 = Lexer.isComment s2
                   \/ Lexer.coms s3 = Lexer.coms s2 ++ [(nL, Py.str [Lexer.cm1 s2; c])]
                      /\ Lexer.isComment s2 = false /\ Lexer.isComment s3 = true)).
  { destruct (_ && _) eqn:Ec in E3.
    - match type of E3 with (?m ≫= _) = _ =>
        destruct m as [v|e] eqn:Ev; [|discriminate] end.
      injection E3 as <-.
      apply andb_prop in Ec as [_ Ec]. apply negb_true_iff in Ec.
      apply orb_false_elim in Ec as [Ec _]. apply orb_false_elim in Ec as [_ Ec].
      destruct s2; cbn in *. repeat split; auto.
      eapply alter_last_text_keys, Ev.
    - injection E3 as <-. auto. }
  destruct K3 as (Ko3 & Kb3 & Kc3).
  rewrite <- Ko3, <- Kb3. clear Ko3 Kb3 E3.
  (* the start of a block comment *)
  match type of H with (?m ≫= _) = _ =>
    destruct m as [s4|e] eqn:E4; [|discriminate] end.
  cbn [mbind result_bind] in H.
  assert (K4 : map fst (Lexer.out_code s4) = map fst (Lexer.out_code s3)
               /\ Lexer.coms s4 = Lexer.coms s3
               /\ Lexer.isComment s4 = Lexer.isComment s3
               /\ (map fst (Lexer.bcoms s4) = map fst (Lexer.bcoms s3)
                   \/ map fst (Lexer.bcoms s4) = map fst (Lexer.bcoms s3) ++ [nL]
                      /\ last (map fst (Lexer.bcoms s3)) <> Some nL)).
  { destruct (_ && _) in E4; [|injection E4 as <-; auto].
    match type of E4 with (?m ≫= _) = _ =>
      destruct m as [v|e] eqn:Ev; [|discriminate] end.
    cbn [mbind result_bind] in E4. apply alter_last_text_keys in Ev.
    set (sb := Lexer.with_out_code v (Lexer.with_isBlockComment true s3)) in E4.
    assert (Es : Lexer.bcoms sb = Lexer.bcoms s3 /\ Lexer.coms sb = Lexer.coms s3
                 /\ Lexer.isComment sb = Lexer.isComment s3
                 /\ Lexer.out_code sb = v) by (destruct s3; repeat split).
    destruct Es as (Eb & Ec & Ei & Eo). clearbody sb.
    rewrite <- Eb, <- Ec, <- Ei, <- Ev, <- Eo.
    destruct (last (Lexer.bcoms sb)) as [[n ls]|] eqn:El.
    - destruct (negb (n =? nL)) eqn:En.
      + injection E4 as <-. destruct sb; cbn in *. repeat split; auto.
        right. rewrite map_app. split; [reflexivity|].
        rewrite last_map, El. cbn. apply negb_true_iff, Z.eqb_neq in En. congruence.
      + match type of E4 with (?m ≫= _) = _ =>
          destruct m as [b|e] eqn:Eb'; [|discriminate] end.
        injection E4 as <-. apply alter_last_bcom_line_keys in Eb'.
        destruct sb; cbn in *. repeat split; auto.
    - injection E4 as <-. destruct sb; cbn in *. repeat split; auto.
      right. rewrite map_app. split; [reflexivity|].
      rewrite last_map, El. discriminate. }
  destruct K4 as (Ko4 & Kc4 & Ei4 & Kb4).
  rewrite <- Ko4. clear Ko4 E4.
  assert (K5 : Lexer.out_code s' = Lexer.out_code s4 /\ Lexer.coms s' = Lexer.coms s4
               /\ Lexer.bcoms s' = Lexer.bcoms s4
               /\ Lexer.isComment s' = Lexer.isComment s4).
  { injection H as <-. destruct (_ && _); destruct s4; repeat split. }
  destruct K5 as (-> & -> & -> & ->).
  split; [reflexivity|]. split; [|exact Kb4].
  rewrite Kc4, Ei4.
  destruct Kc3 as [[-> ->]|(-> & E2 & E3)]; [left; auto|right].
  rewrite map_app. auto.
Qed.

Lemma increasing_snoc (l : list Z) n :
  StronglySorted Z.lt l -> Forall (fun x => x < n) l -> StronglySorted Z.lt (l ++ [n]).
Proof.
  induction 1 as [|a l Hs IH Ha]; intros Hn; cbn [app].
  - repeat constructor.
  - apply Forall_cons in Hn as [Han Hn]. constructor; [apply IH, Hn|].
    apply Forall_app. split; [exact Ha|]. repeat constructor. exact Han.
Qed.

Lemma increasing_snoc_inv (l : list Z) n :
  StronglySorted Z.lt (l ++ [n]) -> StronglySorted Z.lt l /\ Forall (fun x => x < n) l.
Proof.
  induction l as [|a l IH]; cbn [app]; intros H; [split; constructor|].
  apply StronglySorted_inv in H as [Hs Ha]. destruct (IH Hs) as [Hl Hn].
  apply Forall_app in Ha as [Ha Han]. apply Forall_inv in Han.
  split; constructor; auto.
Qed.

Lemma Forall_lt_le (l : list Z) n m :
  n <= m -> Forall (fun x => x < n) l -> Forall (fun x => x < m) l.
Proof.
  intros H Hl. eapply Forall_impl; [exact Hl|]. intros; simpl in *; lia.
Qed.

Lemma Forall_le_lt (l : list Z) n m :
  n < m -> Forall (fun x => x <= n) l -> Forall (fun x => x < m) l.
Proof.
  intros H Hl. eapply Forall_impl; [exact Hl|]. intros; simpl in *; lia.
Qed.

Lemma Forall_lt_le' (l : list Z) n m :
  n <= m -> Forall (fun x => x < n) l -> Forall (fun x => x <= m) l.
Proof.
  intros H Hl. eapply Forall_impl; [exact Hl|]. intros; simpl in *; lia.
Qed.

(** A strictly increasing list bounded by [n] whose last element is not [n]
    is strictly below [n]. *)
Lemma increasing_below (l : list Z) n :
  StronglySorted Z.lt l -> Forall (fun x => x <= n) l -> last l <> Some n ->
  Forall (fun x => x < n) l.
Proof.
  destruct l as [|a l] using rev_ind; [constructor|]. clear IHl.
  intros Hs Hle Hlast. rewrite last_snoc in Hlast.
  apply increasing_snoc_inv in Hs as [_ Ha].
  apply Forall_app in Hle as [_ Hle]. apply Forall_inv in Hle.
  assert (a < n) by (assert (a <> n) by congruence; lia).
  apply Forall_app. split; [|repeat constructor; assumption].
  eapply Forall_impl; [exact Ha|]. intros; simpl in *; lia.
Qed.

Lemma lex_char_numbered nL s c s' :
  Lexer.lex_char nL s c = OK s' -> numbered_upto nL s -> numbered_upto nL s'.
Proof.
  intros H [[Ho1 Ho2] [[Hb1 Hb2] (Hc1 & Hc2 & Hc3)]].
  destruct (lex_char_keys _ _ _ _ H) as (Ko & Kc & Kb).
  split; [rewrite Ko; auto|]. split.
  - destruct Kb as [->|[-> Hl]]; [auto|].
    pose proof (increasing_below _ _ Hb1 Hb2 Hl) as Hlt. split.
    + apply increasing_snoc; assumption.
    + apply Forall_app. split; [exact Hb2|]. repeat constructor. lia.
  - destruct Kc as [[-> Hi]|(-> & Hi & Hi')].
    + split; [exact Hc1|]. split; [exact Hc2|].
      intros E. apply Hc3. destruct (Lexer.isComment s); [|reflexivity].
      rewrite Hi in E by reflexivity. discriminate.
    + specialize (Hc3 Hi). split; [apply increasing_snoc; assumption|]. split.
      * apply Forall_app. split; [exact Hc2|]. repeat constructor. lia.
      * rewrite Hi'. discriminate.
Qed.

Lemma foldlM_preserves {A B : Type} (f : B -> A -> result B) (Inv : B -> Prop) :
  (forall b a b', f b a = OK b' -> Inv b -> Inv b') ->
  forall l b b', foldlM f b l = OK b' -> Inv b -> Inv b'.
Proof.
  intros Hf l. induction l as [|a l IH]; intros b b' H Hb; cbn [foldlM] in H.
  - injection H as <-. exact Hb.
  - destruct (f b a) as [b1|e] eqn:E; [|discriminate].
    cbn [mbind result_bind] in H. eapply IH; [exact H|]. eapply Hf; eassumption.
Qed.

Lemma lex_line_numbered s nL line s' :
  Lexer.lex_line s (nL, line) = OK s' ->
  numbered_below nL s -> numbered_below (nL + 1) s'.
Proof.
  unfold Lexer.lex_line. intros H [[Ho1 Ho2] [[Hb1 Hb2] [Hc1 Hc2]]].
  destruct (negb _).
  { injection H as <-. repeat split; auto; eapply Forall_lt_le; try eassumption; lia. }
  set (s0 := Lexer.with_isComment false s) in H.
  assert (E0 : Lexer.out_code s0 = Lexer.out_code s /\ Lexer.bcoms s0 = Lexer.bcoms s
               /\ Lexer.coms s0 = Lexer.coms s /\ Lexer.isComment s0 = false)
    by (destruct s; repeat split).
  destruct E0 as (Eo & Eb & Ec & Ei). clearbody s0.
  rewrite <- Eo in Ho1, Ho2. rewrite <- Eb in Hb1, Hb2. rewrite <- Ec in Hc1, Hc2.
  clear Eo Eb Ec.
  match type of H with (?m ≫= _) = _ =>
    destruct m as [s1|e] eqn:E1; [|discriminate] end.
  cbn [mbind result_bind] in H.
  assert (K1 : (StronglySorted Z.lt (map fst (Lexer.out_code s1))
                /\ Forall (fun x => x <= nL) (map fst (Lexer.out_code s1)))
               /\ Lexer.bcoms s1 = Lexer.bcoms s0 /\ Lexer.coms s1 = Lexer.coms s0
               /\ Lexer.isComment s1 = false).
  { assert (Happ : StronglySorted Z.lt (map fst (Lexer.out_code s0 ++ [(nL, "")]))
                   /\ Forall (fun x => x <= nL) (map fst (Lexer.out_code s0 ++ [(nL, "")]))).
    { rewrite map_app. split; [apply increasing_snoc; assumption|].
      apply Forall_app. split; [eapply Forall_lt_le'; [|eassumption]; lia|].
      repeat constructor. cbn. lia. }
    destruct (last (Lexer.out_code s0)) as [[n t]|] eqn:El.
    - destruct (Py.nonempty t).
      + injection E1 as <-. destruct s0; cbn in *. auto.
      + destruct (alter_last _ (Lexer.out_code s0)) as [v|e] eqn:Ev; [|discriminate].
        injection E1 as <-.
        destruct (Lexer.out_code s0) as [|x l] using rev_ind; [discriminate|].
        clear IHl. rewrite alter_last_app in Ev. injection Ev as <-.
        rewrite map_app in Ho1, Ho2. cbn [map] in Ho1, Ho2.
        apply increasing_snoc_inv in Ho1 as [Hl _].
        apply Forall_app in Ho2 as [Hl2 _].
        destruct s0; cbn in *. repeat split; auto.
        * rewrite map_app. apply increasing_snoc; assumption.
        * rewrite map_app. apply Forall_app. split.
          -- eapply Forall_lt_le'; [|eassumption]; lia.
          -- repeat constructor. cbn. lia.
    - injection E1 as <-. destruct s0; cbn in *. auto. }
  destruct K1 as (Ko1 & Kb1 & Kc1 & Ki1).
  rewrite <- Kb1 in Hb1, Hb2. rewrite <- Kc1 in Hc1, Hc2. clear Kb1 Kc1 E1 Ho1 Ho2.
  match type of H with (?m ≫= _) = _ =>
    destruct m as [s2|e] eqn:E2; [|discriminate] end.
  cbn [mbind result_bind] in H.
  assert (K2 : numbered_upto nL (Lexer.with_cm1 Py.LF s2)).
  { assert (K : Lexer.out_code s2 = Lexer.out_code s1
                /\ map fst (Lexer.bcoms s2) = map fst (Lexer.bcoms s1)
                /\ Lexer.coms s2 = Lexer.coms s1 /\ Lexer.isComment s2 = false).
    { destruct (Lexer.isBlockComment s1).
      - destruct (alter_last _ (Lexer.bcoms s1)) as [v|e] eqn:Ev; [|discriminate].
        injection E2 as <-.
        apply alter_last_keys in Ev; [|intros x y [= <-]; reflexivity].
        destruct s1; cbn in *. auto.
      - injection E2 as <-. auto. }
    destruct K as (Ko & Kb & Kc & Ki). destruct Ko1 as [Ko1 Ko2].
    unfold numbered_upto.
    cbn [Lexer.with_cm1 Lexer.out_code Lexer.bcoms Lexer.coms Lexer.isComment].
    rewrite Ko, Kb, Kc.
    repeat split; auto; eapply Forall_lt_le'; try eassumption; lia. }
  pose proof (foldlM_preserves (Lexer.lex_char nL) (numbered_upto nL)
                (lex_char_numbered nL) _ _ _ H K2) as [[Ho1 Ho2] [[Hb1' Hb2'] (Hc1' & Hc2' & _)]].
  repeat split; auto; eapply Forall_le_lt; try eassumption; lia.
Qed.

Lemma lex_lines_numbered lines : forall n s s',
  foldlM Lexer.lex_line s (enumerate n lines) = OK s' ->
  numbered_below n s -> numbered_below (n + Z.of_nat (length lines)) s'.
Proof.
  induction lines as [|l lines IH]; intros n s s' H Hs; cbn [enumerate foldlM] in H.
  - injection H as <-. cbn [length]. rewrite Z.add_0_r. exact Hs.
  - destruct (Lexer.lex_line s (n, l)) as [s1|e] eqn:E; [|discriminate].
    cbn [mbind result_bind] in H.
    replace (n + Z.of_nat (length (l :: lines))) with (n + 1 + Z.of_nat (length lines))
      by (cbn [length]; lia).
    eapply IH; [exact H|]. eapply lex_line_numbered; eassumption.
Qed.

Lemma trim_code_keys (P : Z -> Prop) out_code :
  Forall P (map fst out_code) -> Forall P (map fst (trim_code out_code)).
Proof.
  induction out_code as [|[n t] l IH]; intros H; [constructor|].
  cbn [map fst] in H. apply Forall_cons in H as [Hn H].
  cbn [trim_code]. destruct (Re.search re_spaces_tabs t); [|auto].
  cbn [map fst]. constructor; auto.
Qed.

Lemma trim_code_increasing out_code :
  StronglySorted Z.lt (map fst out_code) ->
  StronglySorted Z.lt (map fst (trim_code out_code)).
Proof.
  induction out_code as [|[n t] l IH]; intros H; [constructor|].
  cbn [map fst] in H. apply StronglySorted_inv in H as [Hs Hn].
  cbn [trim_code]. destruct (Re.search re_spaces_tabs t); [|auto].
  cbn [map fst]. constructor; [auto|]. apply trim_code_keys, Hn.
Qed.

(** X3. In each of the three streams that [parse_raw_code] returns the line
    numbers are strictly increasing, and below the number of lines read. *)
Theorem parse_raw_code_line_numbers lines code bcoms coms :
  parse_raw_code lines = OK (code, bcoms, coms) ->
  let below := Forall (fun x => x < Z.of_nat (length lines)) in
  StronglySorted Z.lt (map fst code) /\ below (map fst code)
  /\ StronglySorted Z.lt (map fst bcoms) /\ below (map fst bcoms)
  /\ StronglySorted Z.lt (map fst coms) /\ below (map fst coms).
Proof.
  unfold parse_raw_code. intros H.
  destruct (foldlM Lexer.lex_line Lexer.lexer0 (enumerate 0 lines)) as [s|e] eqn:E;
    [|discriminate].
  injection H as <- <- <-.
  apply lex_lines_numbered in E; [|repeat split; constructor].
  destruct E as [[Ho1 Ho2] [[Hb1 Hb2] [Hc1 Hc2]]]. rewrite Z.add_0_l in *.
  cbn zeta. repeat split; auto.
  - apply trim_code_increasing, Ho1.
  - apply trim_code_keys, Ho2.
Qed.

Lemma Node_forest_ind (P : Node -> Prop) :
  (forall l t ch, Forall P ch -> P (node l t ch)) -> forall n, P n.
Proof.
  intros H. fix IH 1. intros [l t ch]. apply H.
  induction ch as [|c ch IHch]; constructor; [apply IH | exact IHch].
Qed.

Lemma forest_size_app a b : forest_size (a ++ b) = (forest_size a + forest_size b)%nat.
Proof. unfold forest_size. rewrite map_app, list_sum_app. reflexivity. Qed.

Lemma forest_size_node l t ch : forest_size [node l t ch] = S (forest_size ch).
Proof. unfold forest_size. simpl. lia. Qed.

Lemma add_special_indent_step_size rec st k n :
  size_loop_inv st k -> size_rec_ok rec n ->
  exists st', add_special_indent_step rec st n = OK st'
              /\ size_loop_inv st' (k + node_count n).
Proof.
  intros [Hsize Hind] (ch & Hrec & Hch).
  destruct st as [out ind]. destruct n as [l t chn]. cbn [fst snd node_children] in *.
  unfold add_special_indent_step. rewrite Hrec.
  cbn [mbind result_bind node_text node_line].
  assert (Hbr : forest_size [node l t ch] = node_count (node l t chn)).
  { rewrite forest_size_node, Hch. reflexivity. }
  destruct (_pattern_match t).
  - eexists. split; [reflexivity|]. split; cbn [fst snd].
    + rewrite forest_size_app, Hbr, Hsize. reflexivity.
    + intros _. destruct out; discriminate.
  - destruct ind.
    + specialize (Hind eq_refl).
      destruct out as [|[l0 t0 ch0] out] using rev_ind; [congruence|]. clear IHout.
      cbn [append_at]. rewrite alter_last_app.
      cbn [mbind result_bind node_children node_line node_text].
      eexists. split; [reflexivity|]. split; cbn [fst snd].
      * rewrite forest_size_app in Hsize |- *.
        rewrite forest_size_node in Hsize |- *.
        rewrite forest_size_app, Hbr. lia.
      * intros _. destruct out; discriminate.
    + eexists. split; [reflexivity|]. split; cbn [fst snd]; [|discriminate].
      rewrite forest_size_app, Hbr, Hsize. reflexivity.
Qed.

Lemma add_special_indent_loop_size rec code : forall st k,
  size_loop_inv st k -> Forall (size_rec_ok rec) code ->
  exists st', foldlM (add_special_indent_step rec) st code = OK st'
              /\ size_loop_inv st' (k + forest_size code).
Proof.
  induction code as [|n code IH]; intros st k Hinv Hall.
  - exists st. unfold forest_size. simpl. rewrite Nat.add_0_r. auto.
  - apply Forall_cons in Hall as [Hn Hall]. cbn [foldlM].
    destruct (add_special_indent_step_size rec st k n Hinv Hn) as (st1 & -> & H1).
    cbn [mbind result_bind].
    destruct (IH st1 _ H1 Hall) as (st' & -> & H').
    exists st'. split; [reflexivity|].
    replace (k + forest_size (n :: code))%nat with (k + node_count n + forest_size code)%nat;
      [exact H'|]. unfold forest_size. simpl. lia.
Qed.

Lemma add_special_indent_in_size n : size_rec_ok add_special_indent_in n.
Proof.
  induction n as [l t ch IH] using Node_forest_ind.
  destruct (add_special_indent_loop_size add_special_indent_in ch ([], false) O)
    as ([out ind] & Hf & Hsize & _); [split; [reflexivity|discriminate] | exact IH |].
  exists out. cbn [add_special_indent_in node_children]. rewrite Hf.
  split; [reflexivity|exact Hsize].
Qed.

(** X4. [add_special_indent] keeps every node of the tree: whatever it
    returns has exactly as many nodes as its input.  It never takes the last
    element of an empty [out_code], so it does not raise [IndexError]. *)
Theorem add_special_indent_keeps_nodes code :
  add_special_indent code <> Raise IndexError
  /\ forall out, add_special_indent code = OK out ->
                 forest_size out = forest_size code.
Proof.
  destruct (add_special_indent_loop_size add_special_indent_in code ([], false) O)
    as ([out ind] & Hf & Hsize & _).
  - split; [reflexivity|discriminate].
  - apply Forall_forall. intros n _. apply add_special_indent_in_size.
  - assert (H : add_special_indent code = OK out)
      by (unfold add_special_indent; rewrite Hf; reflexivity).
    split; [rewrite H; discriminate|].
    intros out' H'. rewrite H in H'. injection H' as <-. exact Hsize.
Qed.

Lemma add_special_indent_keeps_nodes_witness :
  let code := [node (Some 0) "public:" []; node (Some 1) "int x;" [];
               node (Some 2) "switch (c)"
                 [node (Some 3) "case 1:" []; node (Some 4) "f();" [];
                  node (Some 5) "g();" []]] in
  let out := [node (Some 0) "public:" [node (Some 1) "int x;" [];
                node (Some 2) "switch (c)"
                  [node (Some 3) "case 1:" [node (Some 4) "f();" [];
                                            node (Some 5) "g();" []]]]] in
  add_special_indent code = OK out /\ forest_size out = forest_size code.
Proof.
  intros code out.
  assert (H : add_special_indent code = OK out) by (vm_compute; reflexivity).
  split; [exact H|]. exact (proj2 (add_special_indent_keeps_nodes code) out H).
Defined.

Lemma rem_special_indent_app a b :
  rem_special_indent (a ++ b) = rem_special_indent a ++ rem_special_indent b.
Proof. unfold rem_special_indent. apply flat_map_app. Qed.

Lemma rem_special_indent_label l t ch :
  _pattern_match t = true ->
  rem_special_indent [node l t ch] = node l t [] :: rem_special_indent ch.
Proof.
  intros H. unfold rem_special_indent. simpl. rewrite H, app_nil_r.
  destruct ch; reflexivity.
Qed.

Lemma rem_special_indent_other l t ch :
  _pattern_match t = false ->
  rem_special_indent [node l t ch] = [node l t (rem_special_indent ch)].
Proof.
  intros H. unfold rem_special_indent. simpl. rewrite H, andb_false_r.
  reflexivity.
Qed.

Lemma rem_special_indent_nil_inv code : rem_special_indent code = [] -> code = [].
Proof.
  destruct code as [|[l t ch] code]; [reflexivity|].
  unfold rem_special_indent. simpl. destruct (_ && _); discriminate.
Qed.

Lemma add_special_indent_step_inverse rec st pre n :
  indent_loop_inv st pre -> indent_rec_ok rec n ->
  exists st', add_special_indent_step rec st n = OK st'
              /\ indent_loop_inv st' (pre ++ [n]).
Proof.
  intros [Hrem Hind] [Hlab (ch & Hrec & Hch)].
  destruct st as [out ind]. destruct n as [l t chn]. simpl in *.
  unfold add_special_indent_step. rewrite Hrec. cbn [mbind result_bind node_text node_line].
  apply andb_prop in Hlab as [Hlab _].
  destruct (_pattern_match t) eqn:Hkey.
  - (* a label: it has no children *)
    simpl in Hlab. destruct chn; [|discriminate].
    apply rem_special_indent_nil_inv in Hch. subst ch.
    eexists. split; [reflexivity|]. split; simpl.
    + rewrite rem_special_indent_app, Hrem.
      rewrite rem_special_indent_label by exact Hkey. reflexivity.
    + intros _. exists out, l, t, []. auto.
  - destruct ind.
    + destruct (Hind eq_refl) as (out0 & l0 & t0 & ch0 & -> & Hm).
      cbn [append_at]. rewrite alter_last_app. cbn [mbind result_bind node_children
        node_line node_text].
      eexists. split; [reflexivity|]. split; simpl.
      * rewrite rem_special_indent_app in Hrem |- *.
        rewrite rem_special_indent_label in Hrem |- * by exact Hm.
        rewrite rem_special_indent_app.
        rewrite rem_special_indent_other by exact Hkey.
        rewrite Hch, <- Hrem, <- app_assoc. reflexivity.
      * intros _. exists out0, l0, t0, (ch0 ++ [node l t ch]). auto.
    + eexists. split; [reflexivity|]. split; simpl; [|discriminate].
      rewrite rem_special_indent_app, Hrem.
      rewrite rem_special_indent_other by exact Hkey. rewrite Hch. reflexivity.
Qed.

Lemma add_special_indent_loop_inverse rec code : forall st pre,
  indent_loop_inv st pre -> Forall (indent_rec_ok rec) code ->
  exists st', foldlM (add_special_indent_step rec) st code = OK st'
              /\ indent_loop_inv st' (pre ++ code).
Proof.
  induction code as [|n code IH]; intros st pre Hinv Hall.
  - exists st. rewrite app_nil_r. auto.
  - apply Forall_cons in Hall as [Hn Hall]. simpl.
    destruct (add_special_indent_step_inverse rec st pre n Hinv Hn) as (st1 & -> & H1).
    cbn [mbind result_bind].
    destruct (IH st1 (pre ++ [n]) H1 Hall) as (st' & -> & H').
    exists st'. rewrite <- app_assoc in H'. auto.
Qed.

Lemma add_special_indent_in_inverse n :
  indent_rec_ok add_special_indent_in n \/ labels_are_leaves n = false.
Proof.
  induction n as [l t ch IH] using Node_forest_ind.
  destruct (labels_are_leaves (node l t ch)) eqn:Hlab; [left|right; reflexivity].
  split; [exact Hlab|].
  assert (Hall : Forall (indent_rec_ok add_special_indent_in) ch).
  { simpl in Hlab. apply andb_prop in Hlab as [_ Hch].
    rewrite forallb_forall in Hch. rewrite Forall_forall in IH |- *.
    intros c Hc. destruct (IH c Hc) as [H|H]; [exact H|].
    rewrite (Hch c) in H; [discriminate|]. apply list_elem_of_In, Hc. }
  destruct (add_special_indent_loop_inverse add_special_indent_in ch ([], false) [])
    as ([out ind] & Hf & Hrem & _); [split; [reflexivity|discriminate] | exact Hall |].
  exists out. simpl. rewrite Hf. split; [reflexivity|exact Hrem].
Qed.

(** X5. On a tree whose access and switch labels have no children,
    [rem_special_indent] undoes [add_special_indent]. *)
Theorem rem_special_indent_add_special_indent code :
  forallb labels_are_leaves code = true ->
  exists out, add_special_indent code = OK out /\ rem_special_indent out = code.
Proof.
  intros Hlab.
  assert (Hall : Forall (indent_rec_ok add_special_indent_in) code).
  { rewrite forallb_forall in Hlab. rewrite Forall_forall.
    intros c Hc. destruct (add_special_indent_in_inverse c) as [H|H]; [exact H|].
    rewrite (Hlab c) in H; [discriminate|]. apply list_elem_of_In, Hc. }
  destruct (add_special_indent_loop_inverse add_special_indent_in code ([], false) [])
    as ([out ind] & Hf & Hrem & _); [split; [reflexivity|discriminate] | exact Hall |].
  exists out. unfold add_special_indent. rewrite Hf. split; [reflexivity|exact Hrem].
Qed.

Lemma chars_app a b : Py.chars (a +:+ b) = Py.chars a ++ Py.chars b.
Proof. induction a as [|x a IH]; simpl; [reflexivity|]. f_equal. exact IH. Qed.

Lemma str_chars s : Py.str (Py.chars s) = s.
Proof. apply string_of_list_ascii_of_string. Qed.

Lemma ends_with_add t x : Py.ends_with (t +:+ String x "") x = true.
Proof.
  unfold Py.ends_with. rewrite chars_app, rev_app_distr. simpl.
  apply Ascii.eqb_refl.
Qed.

Lemma drop_last_add t x : Py.drop_last 1 (t +:+ String x "") = t.
Proof.
  unfold Py.drop_last. rewrite chars_app, length_app. simpl.
  replace (length (Py.chars t) + 1 - 1)%nat with (length (Py.chars t)) by lia.
  rewrite take_app_length. apply str_chars.
Qed.

Lemma nonempty_add t x : Py.nonempty (t +:+ String x "") = true.
Proof. destruct t; reflexivity. Qed.

Lemma map_id_Forall {A : Type} (f : A -> A) (l : list A) :
  Forall (fun x => f x = x) l -> map f l = l.
Proof. induction 1; simpl; congruence. Qed.

Lemma rem_semicolon_node_id n :
  no_semicolon_leaf n = true -> rem_semicolon_node n = n.
Proof.
  induction n as [l t ch IH] using Node_forest_ind. intros H.
  simpl in H. apply andb_prop in H as [Hleaf Hch].
  cbn [rem_semicolon_node].
  assert (Hmap : map rem_semicolon_node ch = ch).
  { apply map_id_Forall. rewrite forallb_forall in Hch.
    rewrite Forall_forall in IH |- *. intros c Hc. apply IH; [exact Hc|].
    apply Hch, list_elem_of_In, Hc. }
  rewrite Hmap.
  destruct (nonnil ch); simpl in *.
  - rewrite andb_false_r, andb_false_r. reflexivity.
  - apply negb_true_iff in Hleaf. rewrite Hleaf. rewrite andb_false_r. reflexivity.
Qed.

Lemma rem_add_semicolon_node n :
  no_semicolon_leaf n = true -> rem_semicolon_node (add_semicolon_node n) = n.
Proof.
  induction n as [l t ch IH] using Node_forest_ind. intros H.
  pose proof (rem_semicolon_node_id _ H) as Hid.
  simpl in H. apply andb_prop in H as [Hleaf Hch].
  cbn [add_semicolon_node].
  destruct ch as [|c ch].
  - simpl in Hleaf. apply negb_true_iff in Hleaf. cbn [nonnil].
    destruct (Py.nonempty t) eqn:Hne; [|exact Hid].
    destruct (Re.matches re_macro t); [exact Hid|].
    cbn [negb rem_semicolon_node map nonnil].
    rewrite nonempty_add, ends_with_add. cbn [andb negb].
    rewrite drop_last_add. reflexivity.
  - cbn [nonnil]. destruct (Re.matches re_enum t); [exact Hid|].
    cbn [negb rem_semicolon_node].
    assert (Hmap : map rem_semicolon_node (map add_semicolon_node (c :: ch)) = c :: ch).
    { rewrite map_map. apply map_id_Forall. rewrite forallb_forall in Hch.
      rewrite Forall_forall in IH |- *. intros d Hd. apply IH; [exact Hd|].
      apply Hch, list_elem_of_In, Hd. }
    rewrite Hmap. cbn [map nonnil negb]. rewrite andb_false_r, andb_false_r.
    reflexivity.
Qed.

(** X6. On a tree without a leaf that ends in a semicolon, [rem_semicolon]
    undoes [add_semicolon]. *)
Theorem rem_semicolon_add_semicolon code :
  forallb no_semicolon_leaf code = true ->
  rem_semicolon (add_semicolon code) = code.
Proof.
  intros H. unfold rem_semicolon, add_semicolon. rewrite map_map.
  apply map_id_Forall. rewrite forallb_forall in H. rewrite Forall_forall.
  intros n Hn. apply rem_add_semicolon_node, H, list_elem_of_In, Hn.
Qed.

Lemma starts_with_hash_add t x :
  Py.nonempty t = true -> starts_with_hash (t +:+ String x "") = starts_with_hash t.
Proof. destruct t; [discriminate|reflexivity]. Qed.

Lemma rem_add_colon_node n :
  colon_free n = true -> rem_colon_node (add_colon_node n) = n.
Proof.
  induction n as [l t ch IH] using Node_forest_ind. intros H.
  cbn [colon_free] in H. apply andb_prop in H as [Hch H].
  assert (Hmap : map rem_colon_node (map add_colon_node ch) = ch).
  { rewrite map_map. apply map_id_Forall. rewrite forallb_forall in Hch.
    rewrite Forall_forall in IH |- *. intros d Hd. apply IH; [exact Hd|].
    apply Hch, list_elem_of_In, Hd. }
  cbn [add_colon_node].
  destruct ch as [|c ch].
  - (* a leaf is not touched by add_colon *)
    cbn [nonnil map] in *. cbn [rem_colon_node].
    fold (_pattern_match t). fold (starts_with_hash t).
    destruct (Py.nonempty t); [|reflexivity].
    destruct (_pattern_match t); [reflexivity|].
    destruct (starts_with_hash t); [reflexivity|].
    destruct (Py.ends_with t ":"); [discriminate|reflexivity].
  - cbn [nonnil] in *.
    destruct (Py.nonempty t) eqn:Hne.
    + destruct (_pattern_match t) eqn:Hm.
      * cbn [negb rem_colon_node]. fold (_pattern_match t). rewrite Hm, Hne.
        cbn [orb negb andb]. rewrite Hmap. reflexivity.
      * cbn [orb] in H. apply andb_prop in H as [Hm' Hh].
        apply negb_true_iff in Hm', Hh.
        cbn [negb rem_colon_node]. fold (_pattern_match (t +:+ ":")).
        fold (starts_with_hash (t +:+ ":")).
        rewrite nonempty_add, Hm', starts_with_hash_add, Hh, ends_with_add by exact Hne.
        cbn [orb negb andb]. rewrite drop_last_add.
        change (map add_colon_node (c :: ch))
          with (add_colon_node c :: map add_colon_node ch) in *.
        cbn iota. rewrite Hmap. reflexivity.
    + destruct l; [discriminate|]. destruct t; [|discriminate].
      change ("" +:+ ":") with ":".
      change (rem_colon_node (node None ":" (map add_colon_node (c :: ch))))
        with (node None "" (map rem_colon_node (map add_colon_node (c :: ch)))).
      rewrite Hmap. reflexivity.
Qed.

(** X7. [rem_colon] undoes [add_colon] on a tree where: a leaf that ends in a
    colon is a label or a macro; a node with children and a text is a label
    or does not become one with a colon added, and is not a macro; a node
    with children and no text has no line number. *)
Theorem rem_colon_add_colon code :
  forallb colon_free code = true -> rem_colon (add_colon code) = code.
Proof.
  intros H. unfold rem_colon, add_colon. rewrite map_map.
  apply map_id_Forall. rewrite forallb_forall in H. rewrite Forall_forall.
  intros n Hn. apply rem_add_colon_node, H, list_elem_of_In, Hn.
Qed.

Lemma rem_colon_add_colon_witness :
  let code := [node (Some 0) "class A"
                 [node (Some 1) "public:" [node (Some 2) "int x" []]];
               node (Some 3) "while (a ? b : c)" [node (Some 4) "f()" []]] in
  forallb colon_free code = true /\ rem_colon (add_colon code) = code.
Proof.
  intros code. split; [vm_compute; reflexivity|].
  apply rem_colon_add_colon. vm_compute; reflexivity.
Defined.

(** node counts *)
Lemma list_sum_map_ext {A : Type} (f g : A -> nat) (l : list A) :
  Forall (fun x => f x = g x) l -> list_sum (map f l) = list_sum (map g l).
Proof. induction 1; simpl; congruence. Qed.

Lemma node_count_map (f : Node -> Node) (ch : list Node) :
  Forall (fun c => node_count (f c) = node_count c) ch ->
  list_sum (map node_count (map f ch)) = list_sum (map node_count ch).
Proof. intros H. rewrite map_map. apply list_sum_map_ext, H. Qed.

Lemma add_colon_node_count n : node_count (add_colon_node n) = node_count n.
Proof.
  induction n as [l t ch IH] using Node_forest_ind. cbn [add_colon_node].
  destruct (if nonnil ch then _ else _) as [l' t']. cbn [node_count].
  rewrite node_count_map by exact IH. reflexivity.
Qed.

Lemma add_semicolon_node_count n : node_count (add_semicolon_node n) = node_count n.
Proof.
  induction n as [l t ch IH] using Node_forest_ind. cbn [add_semicolon_node].
  destruct (nonnil ch).
  - destruct (negb _); [|reflexivity]. cbn [node_count].
    rewrite node_count_map by exact IH. reflexivity.
  - destruct (Py.nonempty t); [|reflexivity]. destruct (negb _); reflexivity.
Qed.

Lemma rem_semicolon_node_count n : node_count (rem_semicolon_node n) = node_count n.
Proof.
  induction n as [l t ch IH] using Node_forest_ind. cbn [rem_semicolon_node node_count].
  rewrite node_count_map by exact IH. reflexivity.
Qed.

Lemma forest_size_cons n code :
  forest_size (n :: code) = (node_count n + forest_size code)%nat.
Proof. reflexivity. Qed.

Lemma rem_special_indent_node_count n :
  forest_size (rem_special_indent_node n) = node_count n.
Proof.
  induction n as [l t ch IH] using Node_forest_ind.
  assert (E : forest_size (flat_map rem_special_indent_node ch)
              = list_sum (map node_count ch)).
  { induction IH as [|c ch Hc _ IHch]; [reflexivity|].
    cbn [flat_map]. rewrite forest_size_app, Hc, IHch. reflexivity. }
  cbn [rem_special_indent_node].
  destruct (_ && _).
  - rewrite forest_size_cons, E. reflexivity.
  - rewrite forest_size_cons. cbn [node_count]. fold (forest_size (flat_map rem_special_indent_node ch)).
    rewrite E. unfold forest_size. simpl. lia.
Qed.

Lemma rem_colon_node_count n : (node_count n <= node_count (rem_colon_node n))%nat.
Proof.
  induction n as [l t ch IH] using Node_forest_ind. cbn [rem_colon_node].
  assert (E : (list_sum (map node_count ch)
               <= list_sum (map node_count (map rem_colon_node ch)))%nat).
  { induction IH as [|c ch Hc _ IHch]; [reflexivity|]. simpl. lia. }
  destruct (_ && _); [destruct ch|]; simpl in *; lia.
Qed.

(** X8. [add_colon], [add_semicolon], [rem_semicolon] and
    [rem_special_indent] keep the number of nodes; [rem_colon] never lowers
    it (it adds the place holders of empty blocks). *)
Theorem passes_keep_nodes code :
  forest_size (add_colon code) = forest_size code
  /\ forest_size (add_semicolon code) = forest_size code
  /\ forest_size (rem_semicolon code) = forest_size code
  /\ forest_size (rem_special_indent code) = forest_size code
  /\ (forest_size code <= forest_size (rem_colon code))%nat.
Proof.
  unfold forest_size, add_colon, add_semicolon, rem_semicolon, rem_colon.
  split; [|split; [|split; [|split]]].
  - apply node_count_map, Forall_forall. intros; apply add_colon_node_count.
  - apply node_count_map, Forall_forall. intros; apply add_semicolon_node_count.
  - apply node_count_map, Forall_forall. intros; apply rem_semicolon_node_count.
  - unfold rem_special_indent. induction code as [|c code IH]; [reflexivity|].
    cbn [flat_map]. fold (forest_size (rem_special_indent_node c ++ flat_map rem_special_indent_node code)).
    rewrite forest_size_app, rem_special_indent_node_count.
    unfold forest_size at 1. rewrite IH. reflexivity.
  - induction code as [|c code IH]; [reflexivity|].
    pose proof (rem_colon_node_count c). simpl. lia.
Qed.

Lemma on_ladder_le N M e : (N <= M)%nat -> on_ladder M e -> on_ladder N e.
Proof. intros H (k & Hk & E). exists k. split; [lia|exact E]. Qed.

Lemma length_flat_map_sum {A B : Type} (f : A -> list B) (g : A -> nat) (l : list A) :
  Forall (fun a => length (f a) = g a) l ->
  length (flat_map f l) = list_sum (map g l).
Proof.
  induction 1 as [|a l Ha _ IH]; [reflexivity|].
  simpl. rewrite length_app, Ha, IH. reflexivity.
Qed.

Lemma Forall_flat_map_intro {A B : Type} (f : A -> list B) (P : B -> Prop) (l : list A) :
  Forall (fun a => Forall P (f a)) l -> Forall P (flat_map f l).
Proof.
  induction 1 as [|a l Ha _ IH]; [constructor|].
  simpl. apply Forall_app. auto.
Qed.

Lemma indent_node_lines n : forall N,
  length (indent_node N n) = node_count n
  /\ Forall (on_ladder N) (indent_node N n).
Proof.
  induction n as [l t ch IH] using Node_forest_ind. intros N.
  cbn [indent_node node_count]. split.
  - cbn [length]. f_equal. apply length_flat_map_sum.
    eapply Forall_impl; [exact IH|]. intros c Hc. apply Hc.
  - constructor; [exists N; split; [lia|reflexivity]|].
    apply Forall_flat_map_intro. eapply Forall_impl; [exact IH|].
    intros c Hc. eapply Forall_impl; [apply (Hc (S N))|].
    intros e. apply on_ladder_le. lia.
Qed.

(** X12. [indent] emits one line per node, each with a white space of
    4 * k spaces for a k that is at least the starting depth. *)
Theorem indent_lines code N :
  length (indent code N) = forest_size code
  /\ Forall (on_ladder N) (indent code N).
Proof.
  unfold indent, forest_size. split.
  - apply length_flat_map_sum. apply Forall_forall. intros n _. apply indent_node_lines.
  - apply Forall_flat_map_intro. apply Forall_forall. intros n _. apply indent_node_lines.
Qed.

Lemma curlify_node_lines n : forall N,
  length (curlify_node N n) = (node_count n + block_count n)%nat
  /\ Forall (on_ladder N) (curlify_node N n).
Proof.
  induction n as [l t ch IH] using Node_forest_ind. intros N.
  cbn [curlify_node node_count block_count].
  destruct ch as [|c ch]; [split; [reflexivity|]|].
  { constructor; [exists N; split; [lia|reflexivity]|constructor]. }
  cbn [nonnil]. split.
  - cbn [length]. rewrite length_app.
    rewrite (length_flat_map_sum _ (fun n => (node_count n + block_count n)%nat)).
    + cbn [length].
      assert (E : forall l : list Node,
        list_sum (map (fun n => (node_count n + block_count n)%nat) l)
        = (list_sum (map node_count l) + list_sum (map block_count l))%nat).
      { induction l0 as [|x l0 IHl]; simpl; lia. }
      rewrite E. lia.
    + eapply Forall_impl; [exact IH|]. intros d Hd. apply Hd.
  - constructor; [exists N; split; [lia|reflexivity]|].
    apply Forall_app. split.
    + apply Forall_flat_map_intro. eapply Forall_impl; [exact IH|].
      intros d Hd. eapply Forall_impl; [apply (Hd (S N))|].
      intros e. apply on_ladder_le. lia.
    + constructor; [exists N; split; [lia|reflexivity]|constructor].
Qed.

(** X13. [curlify] emits one line per node and one closing brace per node
    with children, each with a white space of 4 * k spaces. *)
Theorem curlify_lines code N :
  length (curlify code N) = (forest_size code + forest_blocks code)%nat
  /\ Forall (on_ladder N) (curlify code N)
  /\ length (curlify code N) = (length (indent code N) + forest_blocks code)%nat.
Proof.
  assert (H1 : length (curlify code N) = (forest_size code + forest_blocks code)%nat).
  { unfold curlify, forest_size, forest_blocks.
    rewrite (length_flat_map_sum _ (fun n => (node_count n + block_count n)%nat)).
    - induction code as [|x code IH]; simpl; lia.
    - apply Forall_forall. intros n _. apply curlify_node_lines. }
  split; [exact H1|]. split.
  - apply Forall_flat_map_intro. apply Forall_forall. intros n _. apply curlify_node_lines.
  - rewrite H1. f_equal. symmetry. apply indent_lines.
Qed.

Lemma drag_step_ok st r :
  drag_inv st -> exists st', drag_step st r = OK st' /\ drag_inv st'.
Proof.
  destruct st as [code prev]. intros [Hcode Hprev]. simpl in *.
  unfold drag_step.
  assert (exists code', (if Re.matches alias (code_text r)
            then match prev with
                 | Some p => if Py.ceq p "}" then alter_last (λ q, OK (drag q r)) code
                             else OK (code ++ [r])
                 | None => Raise UnboundLocalError
                 end
            else OK (code ++ [r])) = OK code' /\ code' <> []) as (code' & -> & Hc').
  { destruct (Re.matches alias (code_text r)).
    - destruct prev as [p|]; [|congruence].
      destruct (Py.ceq p "}").
      + destruct code as [|q code] using rev_ind; [congruence|].
        rewrite alter_last_app. simpl. eexists. split; [reflexivity|].
        destruct code; discriminate.
      + eexists. split; [reflexivity|]. destruct code; discriminate.
    - eexists. split; [reflexivity|]. destruct code; discriminate. }
  eexists. split; [reflexivity|]. split; [exact Hc'|discriminate].
Qed.

Lemma drag_step_first r :
  drag_step ([], None) r
  = if Re.matches alias (code_text r) then Raise UnboundLocalError
    else OK ([r], Some (last_or_space (code_text r))).
Proof. unfold drag_step. destruct (Re.matches alias (code_text r)); reflexivity. Qed.

Lemma drag_aliases_raises_on_first code1 :
  match code1 with
  | [] => drag_aliases code1 = OK []
  | r :: _ =>
      if Re.matches alias (code_text r)
      then drag_aliases code1 = Raise UnboundLocalError
      else exists out, drag_aliases code1 = OK out /\ out <> []
  end.
Proof.
  destruct code1 as [|r rest]; [reflexivity|].
  unfold drag_aliases. rewrite foldlM_cons, drag_step_first.
  destruct (Re.matches alias (code_text r)); [reflexivity|].
  cbn [mbind result_bind].
  destruct (foldlM_invariant drag_step drag_inv drag_step_ok rest
              ([r], Some (last_or_space (code_text r))))
    as ([out prev] & -> & Hout & _); [split; discriminate|].
  exists out. split; [reflexivity|exact Hout].
Qed.

Lemma enumerate_from_app {A : Type} (l1 l2 : list A) : forall n,
  enumerate_from n (l1 ++ l2)
  = enumerate_from n l1 ++ enumerate_from (n + length l1) l2.
Proof.
  induction l1 as [|a l1 IH]; intros n; simpl.
  - rewrite Nat.add_0_r. reflexivity.
  - rewrite IH. do 3 f_equal. lia.
Qed.

Lemma insert_line_at_last depth label n :
  (length depth <= n + 1)%nat -> insert_line_at depth label n = true.
Proof.
  intros H. unfold insert_line_at.
  rewrite !(lookup_ge_None_2 depth) by lia. reflexivity.
Qed.

Lemma cosmetic_lines_last_blank code0 out :
  cosmetic_lines code0 = OK out ->
  out = [] \/ exists out', out = out' ++ [blank_line].
Proof.
  unfold cosmetic_lines.
  destruct (drag_aliases _) as [code|e]; [|discriminate].
  cbn [mbind result_bind]. intros [= <-].
  destruct code as [|r code] using rev_ind; [left; reflexivity|]. right.
  clear IHcode. rewrite enumerate_from_app, flat_map_app.
  cbn [enumerate_from flat_map fst snd Nat.add].
  rewrite insert_line_at_last.
  2:{ rewrite length_map, length_app. apply Nat.le_refl. }
  rewrite app_nil_r. eexists (_ ++ [r]). rewrite <- app_assoc. reflexivity.
Qed.

Lemma drag_step_no_alias code prev r :
  Re.matches alias (code_text r) = false ->
  drag_step (code, prev) r = OK (code ++ [r], Some (last_or_space (code_text r))).
Proof. intros H. unfold drag_step. rewrite H. reflexivity. Qed.

Lemma drag_fold_no_alias rest : forall code prev,
  Forall (fun r => Re.matches alias (code_text r) = false) rest ->
  exists prev', foldlM drag_step (code, prev) rest = OK (code ++ rest, prev').
Proof.
  induction rest as [|r rest IH]; intros code prev Hall.
  - exists prev. rewrite app_nil_r. reflexivity.
  - apply Forall_cons in Hall as [Hr Hall]. cbn [foldlM].
    rewrite drag_step_no_alias by exact Hr. cbn [mbind result_bind].
    destruct (IH (code ++ [r]) (Some (last_or_space (code_text r))) Hall) as [p ->].
    exists p. rewrite <- app_assoc. reflexivity.
Qed.

Lemma filter_inserted (depth : list nat) (label : list (option label)) code : forall k,
  Forall (fun r => not_blank r = true) code ->
  filter (fun r => not_blank r = true)
    (flat_map (fun e : nat * printed =>
                 if insert_line_at depth label (fst e)
                 then [snd e; blank_line] else [snd e])
       (enumerate_from k code))
  = code.
Proof.
  induction code as [|r code IH]; intros k Hall; [reflexivity|].
  apply Forall_cons in Hall as [Hr Hall].
  cbn [enumerate_from flat_map fst snd]. rewrite filter_app, IH by exact Hall.
  destruct (insert_line_at depth label k).
  - rewrite filter_cons_True by exact Hr.
    rewrite filter_cons_False by (vm_compute; discriminate). reflexivity.
  - rewrite filter_cons_True by exact Hr. reflexivity.
Qed.

(** X11. When no line has a code text matching [alias], [cosmetic_lines]
    returns, and its result without the blank lines is the input without
    the blank lines. *)
Theorem cosmetic_lines_only_adds_blank_lines code0 :
  Forall (fun r => Re.matches alias (code_text r) = false) code0 ->
  exists out,
    cosmetic_lines code0 = OK out
    /\ filter (fun r => not_blank r = true) out
       = filter (fun r => not_blank r = true) code0.
Proof.
  intros Hall. unfold cosmetic_lines, drag_aliases.
  match goal with |- context [foldlM drag_step ([], None) ?l] => set (code1 := l) end.
  assert (H1 : Forall (fun r => Re.matches alias (code_text r) = false) code1).
  { apply Forall_forall. intros r Hr. apply list_elem_of_filter in Hr as [_ Hr].
    rewrite Forall_forall in Hall. apply Hall, Hr. }
  assert (H2 : Forall (fun r => not_blank r = true) code1).
  { apply Forall_forall. intros r Hr. apply list_elem_of_filter in Hr as [Hr _].
    exact Hr. }
  destruct (drag_fold_no_alias code1 [] None H1) as [p ->].
  cbn [mbind result_bind fst app].
  eexists. split; [reflexivity|]. apply filter_inserted, H2.
Qed.

Lemma cosmetic_lines_only_adds_blank_lines_witness :
  let code0 := [Line "" "int f() {" "" ""; Line "    " "return 1;" "" "// one";
                Line "" "" "" ""; Line "" "}" "" ""] in
  Forall (fun r => Re.matches alias (code_text r) = false) code0
  /\ exists out,
       cosmetic_lines code0 = OK out
       /\ filter (fun r => not_blank r = true) out
          = filter (fun r => not_blank r = true) code0.
Proof.
  intros code0.
  assert (H : Forall (fun r => Re.matches alias (code_text r) = false) code0).
  { repeat constructor. }
  split; [exact H|]. exact (cosmetic_lines_only_adds_blank_lines code0 H).
Defined.

Lemma append_assoc (a b c : string) : (a +:+ b) +:+ c = a +:+ (b +:+ c).
Proof.
  induction a as [|x a IH]; [reflexivity|].
  change (String x ((a +:+ b) +:+ c) = String x (a +:+ (b +:+ c))).
  rewrite IH. reflexivity.
Qed.

Lemma join_snoc sep l x :
  l <> [] -> Py.join sep (l ++ [x]) = Py.join sep l +:+ sep +:+ x.
Proof.
  induction l as [|a l IH]; [congruence|]. intros _.
  destruct l as [|b l].
  - reflexivity.
  - change (Py.join sep ((a :: b :: l) ++ [x]))
      with (a +:+ sep +:+ Py.join sep ((b :: l) ++ [x])).
    rewrite IH by discriminate.
    change (Py.join sep (a :: b :: l)) with (a +:+ sep +:+ Py.join sep (b :: l)).
    rewrite !append_assoc. reflexivity.
Qed.

Lemma code_join_ends_newline out' :
  code_join (out' ++ [blank_line]) = ""
  \/ exists o', code_join (out' ++ [blank_line]) = o' +:+ Py.nl.
Proof.
  unfold code_join. rewrite map_app. cbn [map].
  change (code_join_line blank_line) with "".
  destruct out' as [|r out']; [left; reflexivity|right].
  rewrite join_snoc by discriminate.
  eexists. change (Py.nl +:+ "") with Py.nl. reflexivity.
Qed.

Lemma convert_cosmetic raw_code d o :
  convert raw_code d = OK o ->
  exists c10 c11, cosmetic_lines c10 = OK c11 /\ o = code_join c11.
Proof.
  unfold convert. intros H.
  destruct (parse_raw_code _) as [[[code bcoms] coms]|e]; [|discriminate].
  cbn [mbind result_bind] in H.
  match type of H with (?m ≫= _) = _ => destruct m as [[c8 mv]|e]; [|discriminate] end.
  cbn [mbind result_bind] in H.
  match type of H with (cosmetic_lines ?c ≫= _) = _ =>
    destruct (cosmetic_lines c) as [c11|e] eqn:E; [|discriminate];
    exists c, c11 end.
  injection H as <-. auto.
Qed.

Lemma macro_lines_fold code0 l : forall k s,
  forallb is_macro_line l = true ->
  Curly.nI s = 0 -> Curly.code_buf s = "" ->
  exists s', foldlM (Curly.line code0) s (enumerate_from k l) = OK s'
    /\ Curly.data s'
       = Curly.data s ++ map (fun e => node (Some (fst e)) (Py.strip (snd e)) []) l
    /\ Curly.nI s' = 0 /\ Curly.code_buf s' = "".
Proof.
  induction l as [|[n t] l IH]; intros k s Hm HnI Hbuf.
  - exists s. rewrite app_nil_r. auto.
  - cbn [forallb] in Hm. apply andb_prop in Hm as [Ht Hm].
    cbn [enumerate_from foldlM].
    assert (Hline : Curly.line code0 s (k, (n, t))
      = OK (Curly.mkState (Curly.c s) (Curly.cm1 s) 0 ""
              (Curly.data s ++ [node (Some n) (Py.strip t) []])
              (Curly.isParenOpen s) (Curly.isQuotesOpen s) n)).
    { unfold Curly.line. unfold is_macro_line in Ht. cbn [snd] in Ht.
      destruct t as [|x rest]; [discriminate|]. rewrite Ht.
      destruct s as [c cm1 nI buf data par quo num].
      cbn [Curly.nI Curly.code_buf] in HnI, Hbuf. subst nI buf.
      reflexivity. }
    rewrite Hline. cbn [mbind result_bind].
    edestruct (IH (S k)) as (s' & -> & Hd & HnI' & Hbuf'); [exact Hm| | |].
    + reflexivity.
    + reflexivity.
    + exists s'. cbn [Curly.data] in Hd. rewrite Hd, <- app_assoc. auto.
Qed.

(** X14. Code made of macro lines only (first character [#]) is parsed to
    one leaf per line, in order, with the stripped text of the line and its
    line number: no character of a macro line is read as a token. *)
Theorem nest_curly_macro_lines code :
  forallb is_macro_line code = true ->
  nest_curly code = OK (map (fun e => node (Some (fst e)) (Py.strip (snd e)) []) code).
Proof.
  intros Hm. unfold nest_curly.
  destruct (macro_lines_fold code code O Curly.state0 Hm eq_refl eq_refl)
    as (s' & -> & Hd & _). cbn [mbind result_bind]. rewrite Hd. reflexivity.
Qed.

Lemma nest_curly_macro_lines_witness :
  forallb is_macro_line [(0, "#include <a>"); (2, "#define X  1")] = true
  /\ nest_curly [(0, "#include <a>"); (2, "#define X  1")]
     = OK [node (Some 0) "#include <a>" []; node (Some 2) "#define X  1" []].
Proof.
  split; [reflexivity|].
  exact (nest_curly_macro_lines [(0, "#include <a>"); (2, "#define X  1")] eq_refl).
Defined.

Lemma filter_nonempty_app (a b : list string) :
  List.filter Py.nonempty (a ++ b) = List.filter Py.nonempty a ++ List.filter Py.nonempty b.
Proof. apply List.filter_app. Qed.

Lemma expand_line_fields (r : merged) :
  List.filter Py.nonempty (map code_text (block_comments_expand_line r))
    = List.filter Py.nonempty [code_text r]
  /\ List.filter Py.nonempty (map line_comment (block_comments_expand_line r))
    = List.filter Py.nonempty [line_comment r]
  /\ List.filter Py.nonempty (map block_comment (block_comments_expand_line r))
    = List.filter Py.nonempty (rolled_up r)
  /\ Forall (fun p => white_space p = white_space r) (block_comments_expand_line r).
Proof.
  unfold block_comments_expand_line, rolled_up.
  destruct (block_comment r) as [[|first more]|]; cbn [map code_text line_comment block_comment].
  - repeat split; try reflexivity. repeat constructor.
  - repeat split.
    + cbn [List.filter]. destruct (Py.nonempty (code_text r)); f_equal;
        induction more; simpl; auto.
    + cbn [List.filter]. destruct (Py.nonempty (line_comment r)); f_equal;
        induction more; simpl; auto.
    + cbn [List.filter]. destruct (Py.nonempty first); f_equal;
        rewrite map_map; cbn [block_comment]; rewrite map_id; reflexivity.
    + constructor; [reflexivity|]. apply Forall_map, Forall_forall.
      intros; reflexivity.
  - repeat split; try reflexivity. repeat constructor.
Qed.

(** X15. [block_comments_expand] keeps, in order, the code texts, the line
    comments and the lines of the block comments (the empty ones apart), and
    never returns fewer lines than it gets. *)
Theorem block_comments_expand_keeps code :
  List.filter Py.nonempty (map code_text (block_comments_expand code))
    = List.filter Py.nonempty (map code_text code)
  /\ List.filter Py.nonempty (map line_comment (block_comments_expand code))
    = List.filter Py.nonempty (map line_comment code)
  /\ List.filter Py.nonempty (map block_comment (block_comments_expand code))
    = List.filter Py.nonempty (flat_map rolled_up code)
  /\ (length code <= length (block_comments_expand code))%nat.
Proof.
  unfold block_comments_expand.
  induction code as [|r code (IH1 & IH2 & IH3 & IH4)]; [repeat split; reflexivity|].
  destruct (expand_line_fields r) as (H1 & H2 & H3 & _).
  cbn [flat_map map]. rewrite !map_app, !List.filter_app.
  assert (Hcons : forall (a : string) l,
            List.filter Py.nonempty (a :: l)
            = List.filter Py.nonempty [a] ++ List.filter Py.nonempty l).
  { intros a l. cbn [List.filter]. destruct (Py.nonempty a); reflexivity. }
  split; [|split; [|split]].
  - rewrite Hcons. f_equal; [exact H1 | exact IH1].
  - rewrite Hcons. f_equal; [exact H2 | exact IH2].
  - f_equal; [exact H3 | exact IH3].
  - rewrite length_app. cbn [length].
    assert (1 <= length (block_comments_expand_line r))%nat; [|lia].
    unfold block_comments_expand_line.
    destruct (block_comment r) as [[|? ?]|]; simpl; lia.
Qed.

Lemma do_while_f_other b0 b1 :
  String.eqb (node_text b0) "do" = false -> IndentedDoWhile._f b0 b1 = (b0, false).
Proof.
  intros H. unfold IndentedDoWhile._f. rewrite H.
  destruct (Re.search re_while (node_text b1)); reflexivity.
Qed.

Lemma join_loop_no_do rec code : forall out,
  Forall (fun n => String.eqb (node_text n) "do" = false
                   /\ rec n = (node_children n, ∅)) code ->
  join_loop IndentedDoWhile._f rec code false out ∅ = (out ++ code, ∅).
Proof.
  induction code as [|[l t ch] code IH]; intros out Hall.
  - rewrite app_nil_r. reflexivity.
  - apply Forall_cons in Hall as [[Hdo Hrec] Hall].
    cbn [join_loop]. rewrite Hrec. cbn [node_children node_line node_text] in *.
    destruct code as [|b1 code'].
    + cbn [join_loop]. unfold dict_merge. rewrite (left_id_L ∅ (∪)). reflexivity.
    + rewrite do_while_f_other by exact Hdo.
      cbn [node_line node_text]. unfold dict_merge. rewrite (left_id_L ∅ (∪)).
      rewrite IH by exact Hall. rewrite <- app_assoc. reflexivity.
Qed.

Lemma to_indented_do_while_in_no_do n :
  no_do n = true -> to_indented_do_while_in n = (node_children n, ∅).
Proof.
  induction n as [l t ch IH] using Node_forest_ind. intros H.
  cbn [no_do] in H. apply andb_prop in H as [_ Hch].
  cbn [to_indented_do_while_in node_children].
  rewrite join_loop_no_do; [reflexivity|].
  rewrite forallb_forall in Hch. rewrite Forall_forall in IH |- *.
  intros c Hc. assert (Hn : no_do c = true) by (apply Hch, list_elem_of_In, Hc).
  split; [|apply IH; assumption].
  destruct c as [l' t' ch']. cbn [no_do] in Hn. apply andb_prop in Hn as [Hn _].
  apply negb_true_iff in Hn. exact Hn.
Qed.

(** X16. [to_indented_do_while] returns a tree without a node of text [do] as
    it is, with an empty renumbering dictionary. *)
Theorem to_indented_do_while_no_do code :
  forallb no_do code = true -> to_indented_do_while code = (code, ∅).
Proof.
  intros H. unfold to_indented_do_while. rewrite join_loop_no_do; [reflexivity|].
  rewrite forallb_forall in H. rewrite Forall_forall.
  intros c Hc. assert (Hn : no_do c = true) by (apply H, list_elem_of_In, Hc).
  split; [|apply to_indented_do_while_in_no_do; assumption].
  destruct c as [l' t' ch']. cbn [no_do] in Hn. apply andb_prop in Hn as [Hn _].
  apply negb_true_iff in Hn. exact Hn.
Qed.

Lemma star_greedy_run p k l1 l2 r :
  Forall (fun c => p c = true) l1 ->
  match l2 with [] => True | c :: _ => p c = false end ->
  k l2 = Some r ->
  Re.star_greedy p k (l1 ++ l2) = Some r.
Proof.
  intros H1 H2 Hk. induction H1 as [|a l1 Ha _ IH].
  - simpl. destruct l2 as [|c l2]; [exact Hk|]. simpl. rewrite H2. exact Hk.
  - simpl. rewrite Ha, IH. reflexivity.
Qed.

Lemma chars_spaces k : Py.chars (Py.spaces k) = repeat " "%char k.
Proof. unfold Py.spaces, Py.str, Py.chars. apply list_ascii_of_string_of_list_ascii. Qed.

Lemma len_chars s : Py.len s = length (Py.chars s).
Proof. unfold Py.len. induction s; simpl; congruence. Qed.

Lemma search_re_indent k t :
  plain_text t = true ->
  Re.search re_indent (Py.spaces k +:+ t) = Some [(2%nat, t); (1%nat, Py.spaces k)].
Proof.
  intros Hp. unfold plain_text in Hp.
  apply andb_prop in Hp as [Hp _]. apply andb_prop in Hp as [Hfirst Hdot].
  unfold Re.search. rewrite chars_app, chars_spaces.
  set (inp := repeat " "%char k ++ Py.chars t).
  assert (Hm : Re.rmatch (length inp) (Re.tree re_indent) inp [] (fun _ cs => Some cs)
               = Some [(2%nat, t); (1%nat, Py.spaces k)]).
  { cbn [re_indent Re.tree Re.seq Re.rmatch]. rewrite Nat.eqb_refl.
    unfold inp. apply star_greedy_run.
    - apply Forall_forall. intros c Hc. apply list_elem_of_In, repeat_spec in Hc.
      subst c. reflexivity.
    - destruct (Py.chars t) as [|x l]; [exact I|].
      apply negb_true_iff in Hfirst. exact Hfirst.
    - rewrite <- (app_nil_r (Py.chars t)) at 1. apply star_greedy_run.
      + rewrite forallb_forall in Hdot. apply Forall_forall.
        intros c Hc. apply Hdot, list_elem_of_In, Hc.
      + exact I.
      + cbn [length]. rewrite Nat.sub_0_r, firstn_all, str_chars.
        rewrite length_app.
        replace (length (repeat " "%char k) + length (Py.chars t) - length (Py.chars t))%nat
          with (length (repeat " "%char k)) by lia.
        rewrite take_app_length. reflexivity. }
  destruct inp; cbn [Re.search_from]; rewrite Hm; reflexivity.
Qed.

Lemma len_spaces k : Py.len (Py.spaces k) = k.
Proof. rewrite len_chars, chars_spaces. apply repeat_length. Qed.

Lemma last_char_plain t :
  plain_text t = true ->
  exists c, Py.last_char t = OK c /\ Py.ceq c Py.BACKSLASH = false.
Proof.
  unfold plain_text, Py.last_char, Py.ends_with. intros Hp.
  apply andb_prop in Hp as [Hp Hb]. apply andb_prop in Hp as [Hfirst _].
  destruct (Py.chars t) as [|x l] eqn:E; [discriminate|].
  destruct (rev (x :: l)) as [|d r] eqn:Er.
  - apply (f_equal (@length _)) in Er. rewrite length_rev in Er. discriminate.
  - exists d. split; [reflexivity|]. apply negb_true_iff in Hb. exact Hb.
Qed.

Lemma indented_step_plain data nIp n N t :
  plain_text t = true ->
  Indented.step (Indented.mkState false data nIp) (n, Py.spaces (N * IND_AMT) +:+ t)
  = d ← append_at N (node (Some n) t []) data;
    OK (Indented.mkState false d N).
Proof.
  intros Hp. unfold Indented.step. rewrite search_re_indent by exact Hp.
  cbn [Re.group Nat.eqb Indented.line_cont Indented.data].
  rewrite len_spaces. rewrite (Nat.div_mul N IND_AMT) by discriminate.
  destruct (append_at N (node (Some n) t []) data) as [d|e]; [|reflexivity].
  cbn [mbind result_bind].
  destruct (last_char_plain t Hp) as (c & -> & Hc). cbn [mbind result_bind].
  rewrite Hc. reflexivity.
Qed.

Lemma append_at_ok_any N x y : forall data d,
  append_at N x data = OK d -> exists d', append_at N y data = OK d'.
Proof.
  induction N as [|N IH]; intros data d H; [eexists; reflexivity|].
  cbn [append_at] in *.
  destruct data as [|m data] using rev_ind; [discriminate|]. clear IHdata.
  rewrite alter_last_app in H |- *.
  destruct (append_at N x (node_children m)) as [ch|e] eqn:E; [|discriminate].
  destruct (IH _ _ E) as [ch' ->]. eexists. reflexivity.
Qed.

Lemma append_at_child N l t chs c : forall data dA,
  append_at N (node l t chs) data = OK dA ->
  append_at (S N) c dA = append_at N (node l t (chs ++ [c])) data.
Proof.
  induction N as [|N IH]; intros data dA H.
  - cbn [append_at] in H. injection H as <-.
    cbn [append_at]. rewrite alter_last_app. reflexivity.
  - change (append_at (S N) (node l t chs) data) with
      (alter_last (fun n => ch ← append_at N (node l t chs) (node_children n);
                            OK (node (node_line n) (node_text n) ch)) data) in H.
    change (append_at (S N) (node l t (chs ++ [c])) data) with
      (alter_last (fun n => ch ← append_at N (node l t (chs ++ [c])) (node_children n);
                            OK (node (node_line n) (node_text n) ch)) data).
    destruct data as [|m data] using rev_ind; [discriminate|]. clear IHdata.
    rewrite alter_last_app in H |- *.
    destruct (append_at N (node l t chs) (node_children m)) as [chA|e] eqn:E;
      [|discriminate].
    cbn [mbind result_bind] in H. injection H as <-.
    change (append_at (S (S N)) c ?d) with
      (alter_last (fun n => ch ← append_at (S N) c (node_children n);
                            OK (node (node_line n) (node_text n) ch)) d).
    rewrite alter_last_app. cbn [node_children node_line node_text].
    rewrite (IH _ _ E). reflexivity.
Qed.

Lemma emitted_code_lines_app a b :
  emitted_code_lines (a ++ b) = emitted_code_lines a ++ emitted_code_lines b.
Proof. apply flat_map_app. Qed.

Lemma children_read_back N l t data ch : forall done dA nIp d,
  Forall reads_back ch -> forallb plain_node ch = true ->
  append_at N (node l t done) data = OK dA ->
  append_at N (node l t (done ++ ch)) data = OK d ->
  exists nIp',
    foldlM Indented.step (Indented.mkState false dA nIp)
      (emitted_code_lines (flat_map (indent_node (S N)) ch))
    = OK (Indented.mkState false d nIp').
Proof.
  induction ch as [|c ch IH]; intros done dA nIp d Hall Hplain HA Hd.
  - rewrite app_nil_r in Hd. rewrite HA in Hd. injection Hd as <-.
    exists nIp. reflexivity.
  - apply Forall_cons in Hall as [Hc Hall].
    cbn [forallb] in Hplain. apply andb_prop in Hplain as [Hpc Hplain].
    cbn [flat_map]. rewrite emitted_code_lines_app, foldlM_app.
    destruct (append_at_ok_any N _ (node l t (done ++ [c])) _ _ HA) as [dC HC].
    pose proof (append_at_child N l t done c data dA HA) as Hchild.
    rewrite HC in Hchild.
    destruct (Hc Hpc (S N) dA nIp dC Hchild) as [nIp1 ->].
    cbn [mbind result_bind].
    apply (IH (done ++ [c]) dC nIp1 d Hall Hplain HC).
    rewrite <- app_assoc. exact Hd.
Qed.

Lemma node_reads_back n : reads_back n.
Proof.
  induction n as [l t ch IH] using Node_forest_ind.
  intros Hplain N data nIp d Hd.
  cbn [plain_node] in Hplain. apply andb_prop in Hplain as [Hplain Hch].
  apply andb_prop in Hplain as [Hl Ht].
  destruct l as [n|]; [|discriminate].
  cbn [indent_node]. unfold emitted_code_lines at 1. cbn [flat_map fst snd].
  change (flat_map _ (flat_map (indent_node (S N)) ch))
    with (emitted_code_lines (flat_map (indent_node (S N)) ch)).
  cbn [app foldlM]. rewrite indented_step_plain by exact Ht.
  destruct (append_at_ok_any N _ (node (Some n) t []) _ _ Hd) as [d0 H0].
  rewrite H0. cbn [mbind result_bind].
  apply (children_read_back N (Some n) t data ch [] d0 N d IH Hch H0 Hd).
Qed.

Lemma forest_reads_back code : forall done nIp,
  forallb plain_node code = true ->
  exists nIp',
    foldlM Indented.step (Indented.mkState false done nIp)
      (emitted_code_lines (indent code 0))
    = OK (Indented.mkState false (done ++ code) nIp').
Proof.
  induction code as [|c code IH]; intros done nIp Hplain.
  - exists nIp. rewrite app_nil_r. reflexivity.
  - cbn [forallb] in Hplain. apply andb_prop in Hplain as [Hc Hplain].
    unfold indent. cbn [flat_map]. rewrite emitted_code_lines_app, foldlM_app.
    destruct (node_reads_back c Hc O done nIp (done ++ [c]) eq_refl) as [nIp1 ->].
    cbn [mbind result_bind].
    destruct (IH (done ++ [c]) nIp1 Hplain) as [nIp2 H2].
    exists nIp2. rewrite <- app_assoc in H2. exact H2.
Qed.

(** X17. [nest_indented] reads back what [indent] emits: for a tree whose
    nodes have a line number and a plain text, parsing the emitted lines
    gives the tree. *)
Theorem nest_indented_indent code :
  forallb plain_node code = true ->
  nest_indented (emitted_code_lines (indent code 0)) = OK code.
Proof.
  intros Hplain. unfold nest_indented.
  destruct (forest_reads_back code [] O Hplain) as [nIp' ->]. reflexivity.
Qed.

Lemma nest_indented_indent_witness :
  let code := [node (Some 0) "int f(int x):" [node (Some 1) "return x + 1" []];
               node (Some 2) "int y" []] in
  forallb plain_node code = true
  /\ nest_indented (emitted_code_lines (indent code 0)) = OK code.
Proof.
  intros code. split; [reflexivity|].
  exact (nest_indented_indent code eq_refl).
Defined.

(** X9. [cosmetic_lines] raises exactly when the first line that is not blank
    has a code text matching [alias]: then [prev_char] is read unbound.
    In every other case it returns, and with an empty result only for an
    input without a non-blank line. *)
Theorem cosmetic_lines_raises_exactly code0 :
  match filter (fun r => not_blank r = true) code0 with
  | [] => cosmetic_lines code0 = OK []
  | r :: _ =>
      if Re.matches alias (code_text r)
      then cosmetic_lines code0 = Raise UnboundLocalError
      else exists out, cosmetic_lines code0 = OK out /\ out <> []
  end.
Proof.
  unfold cosmetic_lines.
  pose proof (drag_aliases_raises_on_first (filter (fun r => not_blank r = true) code0))
    as H.
  destruct (filter (fun r => not_blank r = true) code0) as [|r rest].
  - rewrite H. reflexivity.
  - destruct (Re.matches alias (code_text r)).
    + rewrite H. reflexivity.
    + destruct H as (code & -> & Hne). cbn [mbind result_bind].
      eexists. split; [reflexivity|].
      destruct code as [|x code]; [congruence|].
      cbn [enumerate_from flat_map fst snd].
      destruct (insert_line_at _ _ 0); discriminate.
Qed.

(** X10. A result of [cosmetic_lines] that is not empty ends with a blank
    line. *)
Theorem cosmetic_lines_ends_blank code0 out :
  cosmetic_lines code0 = OK out ->
  out = [] \/ exists out', out = out' ++ [blank_line].
Proof. apply cosmetic_lines_last_blank. Qed.

Lemma cosmetic_lines_ends_blank_witness :
  cosmetic_lines [Line "" "int x;" "" ""] = OK [Line "" "int x;" "" ""; blank_line]
  /\ ([Line "" "int x;" "" ""; blank_line] = []
      \/ exists out', [Line "" "int x;" "" ""; blank_line] = out' ++ [blank_line]).
Proof.
  assert (H : cosmetic_lines [Line "" "int x;" "" ""]
              = OK [Line "" "int x;" "" ""; blank_line]) by (vm_compute; reflexivity).
  split; [exact H|]. exact (cosmetic_lines_ends_blank _ _ H).
Defined.

(** X19. Whatever [convert] returns is the empty string or ends with a line
    feed. *)
Theorem convert_ends_with_newline raw_code d o :
  convert raw_code d = OK o -> o = "" \/ exists o', o = o' +:+ Py.nl.
Proof.
  intros H. destruct (convert_cosmetic _ _ _ H) as (c10 & c11 & Hc & ->).
  destruct (cosmetic_lines_last_blank _ _ Hc) as [->|[out' ->]].
  - left. reflexivity.
  - apply code_join_ends_newline.
Qed.

Lemma convert_ends_with_newline_witness :
  convert "int x;" None = OK (text_of ["int x"; ""])
  /\ (text_of ["int x"; ""] = "" \/ exists o', text_of ["int x"; ""] = o' +:+ Py.nl).
Proof.
  assert (H : convert "int x;" None = OK (text_of ["int x"; ""]))
    by (vm_compute; reflexivity).
  split; [exact H|]. exact (convert_ends_with_newline _ _ _ H).
Defined.

(** X18. [nest_indented] raises [IndexError] when the first code line is
    indented by one level or more: there is no line to nest it under. *)
Theorem nest_indented_first_line_indented n N t rest :
  plain_text t = true -> (0 < N)%nat ->
  nest_indented ((n, Py.spaces (N * IND_AMT) +:+ t) :: rest) = Raise IndexError.
Proof.
  intros Hp HN. unfold nest_indented. cbn [foldlM].
  rewrite indented_step_plain by exact Hp.
  destruct N as [|N]; [lia|]. reflexivity.
Qed.

Lemma nest_indented_first_line_indented_witness :
  plain_text "x" = true /\ (0 < 2)%nat
  /\ nest_indented [(0, Py.spaces (2 * IND_AMT) +:+ "x"); (1, "y")] = Raise IndexError.
Proof.
  split; [reflexivity|]. split; [lia|].
  apply (nest_indented_first_line_indented 0 2 "x" [(1, "y")]); [reflexivity|lia].
Defined.

Lemma parse_raw_code_line_numbers_witness :
  let lines := ["int x; // a"; ""; "/* b"; "c */ y; /* d */"] in
  parse_raw_code lines
  = OK ([(0, "int x;"); (3, " y;")],
        [(2, ["/* b"; "c */"]); (3, ["/* d */"])], [(0, "// a")])
  /\ StronglySorted Z.lt [0; 3] /\ StronglySorted Z.lt [2; 3]
  /\ StronglySorted Z.lt [0].
Proof.
  intros lines.
  assert (H : parse_raw_code lines
              = OK ([(0, "int x;"); (3, " y;")],
                    [(2, ["/* b"; "c */"]); (3, ["/* d */"])], [(0, "// a")]))
    by (vm_compute; reflexivity).
  split; [exact H|].
  destruct (parse_raw_code_line_numbers _ _ _ _ H) as (H1 & _ & H2 & _ & H3 & _).
  auto.
Defined.

Lemma rem_special_indent_add_special_indent_witness :
  let code := [node (Some 0) "class A"
                 [node (Some 0) "public:" []; node (Some 0) "int x;" [];
                  node (Some 0) "private:" []; node (Some 0) "int y;" []]] in
  forallb labels_are_leaves code = true
  /\ exists out, add_special_indent code = OK out /\ rem_special_indent out = code.
Proof.
  intros code.
  assert (H : forallb labels_are_leaves code = true) by (vm_compute; reflexivity).
  split; [exact H|]. exact (rem_special_indent_add_special_indent code H).
Defined.

Lemma rem_semicolon_add_semicolon_witness :
  let code := [node (Some 0) "int f(int x)" [node (Some 1) "return x + 1" []];
               node (Some 2) "#define X 1" []] in
  forallb no_semicolon_leaf code = true
  /\ rem_semicolon (add_semicolon code) = code.
Proof.
  intros code.
  assert (H : forallb no_semicolon_leaf code = true) by (vm_compute; reflexivity).
  split; [exact H|]. exact (rem_semicolon_add_semicolon code H).
Defined.

Lemma to_indented_do_while_no_do_witness :
  let code := [node (Some 0) "while (c)" [node (Some 1) "f();" []];
               node (Some 2) "g();" []] in
  forallb no_do code = true /\ to_indented_do_while code = (code, ∅).
Proof.
  intros code.
  assert (H : forallb no_do code = true) by reflexivity.
  split; [exact H|]. exact (to_indented_do_while_no_do code H).
Defined.

(** ** merge_comments keeps the comments *)

Lemma align_comments_fields (out : list merged) :
  map line_comment (fst (align_comments out)) = map line_comment out
  /\ map block_comment (fst (align_comments out)) = map block_comment out
  /\ map code_text (fst (align_comments out)) = map code_text out.
Proof.
  induction out as [|r out (IH1 & IH2 & IH3)]; [auto|].
  cbn [align_comments]. destruct (align_comments out) as [rest spaces].
  cbn [fst] in *. destruct (negb _); cbn [fst map line_comment block_comment code_text];
    rewrite IH1, IH2, IH3; auto.
Qed.

Lemma merge_step_shape code_d bcom_d (com_d : gmap Z string) acc N :
  exists X,
    merge_step code_d bcom_d com_d acc N = acc ++ X
    /\ List.filter Py.nonempty (map line_comment X)
       = List.filter Py.nonempty (match com_d !! N with Some v => [v] | None => [] end)
    /\ omap block_comment X
       = match bcom_d !! N with Some b => [b] | None => [] end.
Proof.
  unfold merge_step.
  destruct (bcom_d !! N) as [b|] eqn:Eb.
  - rewrite bool_decide_eq_true_2 by discriminate.
    rewrite !orb_true_r. cbn [orb].
    eexists. split; [reflexivity|]. split; [|reflexivity].
    destruct (com_d !! N); reflexivity.
  - rewrite bool_decide_eq_false_2 by (intros H; apply H; reflexivity).
    cbn [orb]. rewrite orb_false_r.
    destruct (com_d !! N) as [v|] eqn:Ec.
    + destruct (Py.nonempty v) eqn:Ev.
      * rewrite !orb_true_r. eexists. split; [reflexivity|].
        split; reflexivity.
      * rewrite orb_false_r. destruct (_ || _).
        -- eexists. split; [reflexivity|]. split; [|reflexivity].
           cbn [map line_comment List.filter]. rewrite Ev. reflexivity.
        -- exists []. rewrite app_nil_r. split; [reflexivity|].
           split; [|reflexivity]. cbn [map List.filter]. rewrite Ev. reflexivity.
    + cbn [Py.nonempty]. rewrite orb_false_r. destruct (_ || _).
      * eexists. split; [reflexivity|]. split; reflexivity.
      * exists []. rewrite app_nil_r. auto.
Qed.

Lemma merge_steps_comments code_d bcom_d (com_d : gmap Z string) keys : forall acc,
  List.filter Py.nonempty
    (map line_comment (fold_left (merge_step code_d bcom_d com_d) keys acc))
  = List.filter Py.nonempty (map line_comment acc)
    ++ List.filter Py.nonempty (omap (fun N => com_d !! N) keys)
  /\ omap block_comment (fold_left (merge_step code_d bcom_d com_d) keys acc)
  = omap block_comment acc ++ omap (fun N => bcom_d !! N) keys.
Proof.
  induction keys as [|N keys IH]; intros acc.
  - cbn [fold_left omap list_omap]. rewrite !app_nil_r. auto.
  - cbn [fold_left]. destruct (IH (merge_step code_d bcom_d com_d acc N)) as [-> ->].
    destruct (merge_step_shape code_d bcom_d com_d acc N) as (X & -> & H1 & H2).
    split.
    + rewrite map_app, List.filter_app, <- app_assoc. f_equal.
      etransitivity; [apply f_equal2; [exact H1|reflexivity]|].
      cbn [omap list_omap]. destruct (com_d !! N) as [v|]; [|reflexivity].
      cbn [List.filter]. destruct (Py.nonempty v); reflexivity.
    + rewrite omap_app, H2, <- app_assoc. f_equal.
      cbn [omap list_omap]. destruct (bcom_d !! N); reflexivity.
Qed.

Lemma fold_insert_lookup {V : Type} (key : Z -> Z) (l : list (Z * V)) :
  StronglySorted Z.lt (map (fun e => key (fst e)) l) ->
  forall d0 : gmap Z V,
    let d := fold_left (fun d e => <[key (fst e) := snd e]> d) l d0 in
    (forall e, e ∈ l -> d !! key (fst e) = Some (snd e))
    /\ (forall k, k ∉ map (fun e => key (fst e)) l -> d !! k = d0 !! k).
Proof.
  induction l as [|e l IH]; intros Hs d0; cbn [fold_left map] in *.
  - split; [intros e He; inversion He|auto].
  - apply StronglySorted_inv in Hs as [Hs Hlt].
    destruct (IH Hs (<[key (fst e) := snd e]> d0)) as [IH1 IH2].
    assert (Hnot : key (fst e) ∉ map (fun e => key (fst e)) l).
    { intros Hin. rewrite Forall_forall in Hlt. specialize (Hlt _ Hin). lia. }
    split.
    + intros e' He'. apply elem_of_cons in He' as [->|He']; [|apply IH1, He'].
      rewrite IH2 by exact Hnot. apply lookup_insert_eq.
    + intros k Hk. apply not_elem_of_cons in Hk as [Hne Hk].
      rewrite IH2 by exact Hk. apply lookup_insert_ne. congruence.
Qed.

Lemma omap_sorted_lookup {V : Type} (f : Z -> option V) (K : list Z) :
  forall kv : list (Z * V),
    StronglySorted Z.lt K -> StronglySorted Z.lt (map fst kv) ->
    (forall k, k ∈ map fst kv -> k ∈ K) ->
    (forall e, e ∈ kv -> f (fst e) = Some (snd e)) ->
    (forall k, k ∈ K -> k ∉ map fst kv -> f k = None) ->
    omap f K = map snd kv.
Proof.
  induction K as [|N K IH]; intros kv HK Hkv Hsub Hin Hout.
  - destruct kv as [|e kv]; [reflexivity|].
    specialize (Hsub (fst e)). cbn [map] in Hsub.
    assert (H : fst e ∈ []) by (apply Hsub; left). inversion H.
  - apply StronglySorted_inv in HK as [HK HN]. rewrite Forall_forall in HN.
    cbn [omap list_omap].
    destruct kv as [|[k1 v1] kv].
    + rewrite (Hout N); [|left|intros H; inversion H].
      apply (IH []).
      * exact HK.
      * constructor.
      * intros k H. inversion H.
      * intros e H. inversion H.
      * intros k Hk _. apply Hout; [right; exact Hk|intros H; inversion H].
    + cbn [map fst snd] in *. apply StronglySorted_inv in Hkv as [Hkv Hk1].
      rewrite Forall_forall in Hk1.
      assert (Hk1K : k1 ∈ N :: K) by (apply Hsub; left).
      destruct (decide (k1 = N)) as [->|Hne].
      * pose proof (Hin (N, v1) ltac:(left)) as HfN. cbn [fst snd] in HfN.
        rewrite HfN. f_equal.
        apply IH; auto.
        -- intros k Hk. specialize (Hk1 _ Hk).
           assert (Hk' : k ∈ N :: K) by (apply Hsub; right; exact Hk).
           apply elem_of_cons in Hk' as [->|Hk']; [lia|exact Hk'].
        -- intros e He. apply Hin. right. exact He.
        -- intros k Hk Hnot. apply Hout; [right; exact Hk|].
           intros Hk'. apply elem_of_cons in Hk' as [->|Hk']; [|auto].
           specialize (HN _ Hk). lia.
      * apply elem_of_cons in Hk1K as [->|Hk1K]; [congruence|].
        specialize (HN _ Hk1K).
        rewrite (Hout N).
        -- apply (IH ((k1, v1) :: kv)); auto.
           ++ constructor; [exact Hkv|]. apply Forall_forall. exact Hk1.
           ++ intros k Hk. assert (Hk' : k ∈ N :: K) by (apply Hsub; exact Hk).
              apply elem_of_cons in Hk' as [->|Hk']; [|exact Hk'].
              apply elem_of_cons in Hk as [Heq|Hk]; [cbn [fst] in Heq; lia|].
              specialize (Hk1 _ Hk). lia.
           ++ intros k Hk Hnot. apply Hout; [right; exact Hk|exact Hnot].
        -- left.
        -- intros Hk. apply elem_of_cons in Hk as [Heq|Hk]; [cbn [fst] in Heq; lia|].
           specialize (Hk1 _ Hk). lia.
Qed.

Lemma list_omap_map_id {A B : Type} (f : A -> option B) (l : list A) :
  omap id (map f l) = omap f l.
Proof.
  induction l as [|a l IH]; [reflexivity|].
  cbn [map omap list_omap]. rewrite <- IH. destruct (f a); reflexivity.
Qed.

Lemma increasing_of_sorted_nodup (l : list Z) :
  StronglySorted Z.le l -> NoDup l -> StronglySorted Z.lt l.
Proof.
  induction 1 as [|a l Hs IH Ha]; intros Hnd; [constructor|].
  apply NoDup_cons in Hnd as [Hna Hnd]. constructor; [auto|].
  rewrite Forall_forall in Ha |- *. intros x Hx.
  specialize (Ha x Hx). assert (a <> x) by (intros ->; auto). lia.
Qed.

Lemma omap_comment_dict {V : Type} (ch : moves) (l : list (Z * V)) (K : list Z) :
  StronglySorted Z.lt (comment_keys ch l) ->
  StronglySorted Z.lt K ->
  (forall k, k ∈ dom (comment_dict ch l) -> k ∈ K) ->
  omap (fun N => comment_dict ch l !! N) K = map snd l.
Proof.
  intros Hs HK Hsub. unfold comment_keys in Hs.
  destruct (fold_insert_lookup (comment_key ch) l Hs ∅) as [H1 H2].
  fold (comment_dict ch l) in H1, H2.
  rewrite (omap_sorted_lookup _ K (map (fun e => (comment_key ch (fst e), snd e)) l)).
  - rewrite map_map. reflexivity.
  - exact HK.
  - rewrite map_map. exact Hs.
  - rewrite map_map. intros k Hk. apply Hsub, elem_of_dom.
    apply list_elem_of_In, in_map_iff in Hk as (e & <- & He).
    exists (snd e). apply (H1 e), list_elem_of_In, He.
  - intros e He. apply list_elem_of_In, in_map_iff in He as (e' & <- & He').
    cbn [fst snd]. apply H1, list_elem_of_In, He'.
  - rewrite map_map. intros k _ Hk. rewrite H2 by exact Hk. apply lookup_empty.
Qed.

(** X20. When the keys of the line comments and those of the block comments
    are strictly increasing, [merge_comments] keeps every block comment and
    every line comment that is not empty, each once and in their order. *)
Theorem merge_comments_keeps_comments code bcoms coms ch :
  StronglySorted Z.lt (comment_keys ch coms) ->
  StronglySorted Z.lt (comment_keys ch bcoms) ->
  List.filter Py.nonempty (map line_comment (merge_comments code bcoms coms ch))
    = List.filter Py.nonempty (map snd coms)
  /\ omap block_comment (merge_comments code bcoms coms ch) = map snd bcoms.
Proof.
  intros Hc Hb. unfold merge_comments.
  set (code_d := fst (fold_left code_d_step code (∅, -1024))).
  set (K := merge_sort Z.le _).
  assert (HK : StronglySorted Z.lt K).
  { apply increasing_of_sorted_nodup.
    - apply (StronglySorted_merge_sort Z.le).
    - unfold K. rewrite merge_sort_Permutation. apply NoDup_elements. }
  assert (Hin : forall k, k ∈ K <->
            k ∈ dom code_d ∪ dom (comment_dict ch bcoms) ∪ dom (comment_dict ch coms)).
  { intros k. unfold K. rewrite merge_sort_Permutation. apply elem_of_elements. }
  destruct (align_comments_fields
              (fold_left (merge_step code_d (comment_dict ch bcoms) (comment_dict ch coms))
                 K [])) as (E1 & E2 & _).
  destruct (merge_steps_comments code_d (comment_dict ch bcoms) (comment_dict ch coms) K [])
    as [F1 F2].
  split.
  - rewrite E1, F1. cbn [map List.filter app].
    rewrite omap_comment_dict; auto. intros k Hk. apply (proj2 (Hin k)). rewrite !elem_of_union. auto.
  - rewrite <- (list_omap_map_id block_comment), E2.
    rewrite (list_omap_map_id block_comment), F2. cbn [omap list_omap app].
    rewrite omap_comment_dict; auto. intros k Hk. apply (proj2 (Hin k)). rewrite !elem_of_union. auto.
Qed.

Lemma merge_comments_keeps_comments_witness :
  let code : list emitted := [(Some 1, "", "int x"); (Some 5, "", "int y")] in
  let bcoms : block_comments := [(2, ["/* a"; "b */"]); (7, ["/* c */"])] in
  let coms : line_comments := [(1, "// x"); (3, "// moved"); (6, "")] in
  let ch : moves := {[ Some 3 := Some 5 ]} in
  StronglySorted Z.lt (comment_keys ch coms)
  /\ StronglySorted Z.lt (comment_keys ch bcoms)
  /\ List.filter Py.nonempty (map line_comment (merge_comments code bcoms coms ch))
      = List.filter Py.nonempty (map snd coms)
  /\ omap block_comment (merge_comments code bcoms coms ch) = map snd bcoms.
Proof.
  intros code bcoms coms ch.
  assert (H1 : StronglySorted Z.lt (comment_keys ch coms))
    by (vm_compute; repeat (constructor; try reflexivity)).
  assert (H2 : StronglySorted Z.lt (comment_keys ch bcoms))
    by (vm_compute; repeat (constructor; try reflexivity)).
  split; [exact H1|]. split; [exact H2|].
  exact (merge_comments_keeps_comments code bcoms coms ch H1 H2).
Defined.
